(** * KateTextLayout: one view line of a wrapped document line

    A shallow embedding of [src/part/part/katetextlayout.cpp]; the tooltip
    of [src/addons/lspclient/lsptooltip.cpp] follows it further down.

    A [KateTextLayout] is a small view object: a shared pointer to the
    [KateLineLayout] that owns the wrap decomposition of one document line,
    the index of one of its view lines, the [QTextLine] of that view line and
    a lazily filled cache of its horizontal start.

    Conventions of the embedding.
    - C++ [int] is signed and its overflow is undefined, so the arithmetic of
      the defined executions is that of [Z].
    - [qreal], the toolkit's type of a natural width, is a [double]; it is
      modelled by the rationals [Q].  Where the code stores or returns a
      [qreal] as an [int] the value is truncated towards zero, [toInt].
      Rounding inside a [double] addition is not modelled: the widths of
      the layout engine lie on a grid of 1/64 pixel far below 2^31, where
      the sum of an [int] and a width is exact.
    - The owner is reached through a shared pointer ([KateLineLayoutPtr]):
      the line layouts live in a store, the view object holds an address (or
      null), and everything the owner answers is read from the store at the
      time of the call.  Two view objects on one address see one owner.
    - [const] members that only read are functions of the store and the
      object; members that write ([startX] through the [mutable] cache,
      [xOffset] which calls it, [setDirty] which writes the owner) are
      computations in a state monad over the store and the object.
    - [debugOutput()] only prints and is left out. *)

From Stdlib Require Import QArith.
From stdpp Require Import base numbers option list relations gmap.

Local Open Scope Z_scope.

(** ** Collaborators declared outside this file *)

(** [KTextEditor::Cursor]: a (line, column) pair with its two getters. *)
Record Cursor := mkCursor { c_line : Z; c_column : Z }.

(** The implicit conversion of a [qreal] to [int]: the fraction is dropped,
    towards zero. *)
Definition toInt (x : Q) : Z := Z.quot (Qnum x) (Z.pos (Qden x)).

(** [x += w] for an [int x] and a [qreal w]: the sum is formed as a [qreal]
    and stored back as an [int]. *)
Definition addAssign (x : Z) (w : Q) : Z := toInt (inject_Z x + w)%Q.

(** [QTextLine]: the toolkit's shaped run, with the three getters the code
    uses; [naturalTextWidth()] answers a [qreal]. *)
Record QTextLine := mkQTextLine {
  textStart : Z;
  textLength : Z;
  naturalTextWidth : Q
}.

(** The default constructed [QTextLine()]. *)
Definition QTextLine_null : QTextLine := mkQTextLine 0 0 (inject_Z 0).

Module KateLineLayout.

(** Modelled from the spec: class [KateLineLayout], declared in
    [katelinerange.h], which lies outside the embedded sources.  The spec
    gives it a logical and a virtual line index, an ordered sequence of
    shaped runs, a dirty bit per run and a horizontal shift.  What its own
    [isValid()] answers is kept as a field. *)
Record t := mk {
  m_valid : bool;
  m_line : Z;
  m_virtualLine : Z;
  m_layout : list QTextLine;
  m_shiftX : Z;
  m_dirtyList : list bool
}.

Definition isValid (l : t) : bool := m_valid l.
Definition line (l : t) : Z := m_line l.
Definition virtualLine (l : t) : Z := m_virtualLine l.
Definition shiftX (l : t) : Z := m_shiftX l.

(** Modelled from the spec: [viewLineCount()], "number of wrap segments". *)
Definition viewLineCount (l : t) : Z := Z.of_nat (length (m_layout l)).

(** Modelled from the spec: [layout()->lineAt(i)], the i-th shaped run; the
    toolkit answers the null line outside the range. *)
Definition lineAt (l : t) (i : Z) : QTextLine :=
  if bool_decide (0 ≤ i)
  then default QTextLine_null (m_layout l !! Z.to_nat i)
  else QTextLine_null.

(** Modelled from the spec: [isDirty(viewLine)], "returns whether run
    viewLineIndex needs re-shaping; true unconditionally if the LineLayout
    itself is not valid". *)
Definition isDirty (l : t) (viewLine : Z) : bool :=
  if negb (isValid l) then true
  else if bool_decide (0 ≤ viewLine)
       then default true (m_dirtyList l !! Z.to_nat viewLine)
       else true.

Definition set_dirtyList (l : t) (d : list bool) : t :=
  mk (m_valid l) (m_line l) (m_virtualLine l) (m_layout l) (m_shiftX l) d.

(** Modelled from the spec: [setDirty(viewLine, dirty)], "marks/clears a
    run's dirty state; no-op (reporting dirty) on an invalid layout",
    answering the previous value. *)
Definition setDirty (l : t) (viewLine : Z) (dirty : bool) : bool * t :=
  if negb (isValid l) then (true, l)
  else if bool_decide (0 ≤ viewLine)
       then (isDirty l viewLine,
             set_dirtyList l (<[Z.to_nat viewLine := dirty]> (m_dirtyList l)))
       else (true, l).

(** The indent of continuation rows is set from outside (the renderer's
    wrap pass); the view object never writes it. *)
Definition setShiftX (l : t) (s : Z) : t :=
  mk (m_valid l) (m_line l) (m_virtualLine l) (m_layout l) s (m_dirtyList l).

(** What [m_lineLayout->] reads when the pointer is null or dangling; no
    member reaches it, every dereference is behind [isValid()]. *)
Definition nowhere : t := mk false (-1) (-1) [] 0 [].

End KateLineLayout.

Module KateTextLayout.

(** Addresses of line layouts and the store they live in. *)
Abbreviation addr := positive.
Abbreviation heap := (gmap positive KateLineLayout.t).

(** [KateLineLayoutPtr m_lineLayout; int m_viewLine; mutable int m_startX;
    QTextLine m_textLayout]. *)
Record t := mk {
  m_lineLayout : option addr;
  m_viewLine : Z;
  m_startX : Z;
  m_textLayout : QTextLine
}.

Definition set_startX (r : t) (x : Z) : t :=
  mk (m_lineLayout r) (m_viewLine r) x (m_textLayout r).

Definition set_textLayout (r : t) (q : QTextLine) : t :=
  mk (m_lineLayout r) (m_viewLine r) (m_startX r) q.

(** The object behind [m_lineLayout], if the pointer is not null and the
    object is alive. *)
Definition owner (h : heap) (r : t) : option KateLineLayout.t :=
  match m_lineLayout r with
  | Some p => h !! p
  | None => None
  end.

(** [m_lineLayout->]. *)
Definition deref (h : heap) (r : t) : KateLineLayout.t :=
  default KateLineLayout.nowhere (owner h r).

(** [return m_lineLayout && m_lineLayout->isValid() && m_viewLine >= 0 &&
    m_viewLine < m_lineLayout->viewLineCount();] *)
Definition isValid (h : heap) (r : t) : bool :=
  bool_decide (is_Some (owner h r))
  && KateLineLayout.isValid (deref h r)
  && (m_viewLine r >=? 0)
  && (m_viewLine r <? KateLineLayout.viewLineCount (deref h r)).

(** The constructor: [m_startX(m_viewLine ? -1 : 0)], then
    [if (isValid()) m_textLayout = m_lineLayout->layout()->lineAt(m_viewLine);]. *)
Definition new (h : heap) (line : option addr) (viewLine : Z) : t :=
  let r := mk line viewLine (if viewLine =? 0 then 0 else -1) QTextLine_null in
  if isValid h r
  then set_textLayout r (KateLineLayout.lineAt (deref h r) (m_viewLine r))
  else r.

(** [invalid()] answers [KateTextLayout()], the constructor at the defaults
    of its declaration: no owner, view line 0. *)
Definition invalid (h : heap) : t := new h None 0.

(** *** Members that only read *)

Definition line (h : heap) (r : t) : Z :=
  if negb (isValid h r) then -1
  else KateLineLayout.line (deref h r).

Definition virtualLine (h : heap) (r : t) : Z :=
  if negb (isValid h r) then -1
  else KateLineLayout.virtualLine (deref h r).

Definition viewLine (h : heap) (r : t) : Z :=
  if negb (isValid h r) then 0
  else m_viewLine r.

Definition lineLayout (r : t) : QTextLine := m_textLayout r.

Definition kateLineLayout (r : t) : option addr := m_lineLayout r.

Definition isDirty (h : heap) (r : t) : bool :=
  if negb (isValid h r) then true
  else KateLineLayout.isDirty (deref h r) (viewLine h r).

Definition startCol (h : heap) (r : t) : Z :=
  if negb (isValid h r) then 0
  else textStart (lineLayout r).

Definition start (h : heap) (r : t) : Cursor :=
  mkCursor (line h r) (startCol h r).

Definition endCol (h : heap) (r : t) : Z :=
  if negb (isValid h r) then 0
  else startCol h r + textLength (m_textLayout r).

Definition end_ (h : heap) (r : t) : Cursor :=
  mkCursor (line h r) (endCol h r).

Definition length (h : heap) (r : t) : Z :=
  if negb (isValid h r) then 0
  else textLength (m_textLayout r).

Definition isEmpty (h : heap) (r : t) : bool :=
  if negb (isValid h r) then true
  else (startCol h r =? 0) && (endCol h r =? 0).

Definition wrap (h : heap) (r : t) : bool :=
  if negb (isValid h r) then false
  else viewLine h r <? KateLineLayout.viewLineCount (deref h r) - 1.

(** [return m_startX + m_textLayout.naturalTextWidth();]: the field, not
    the member [startX()]; the [qreal] sum is returned as [int]. *)
Definition endX (h : heap) (r : t) : Z :=
  if negb (isValid h r) then 0
  else toInt (inject_Z (m_startX r) + naturalTextWidth (m_textLayout r))%Q.

(** [return m_textLayout.naturalTextWidth();], as [int]. *)
Definition width (h : heap) (r : t) : Z :=
  if negb (isValid h r) then 0
  else toInt (naturalTextWidth (m_textLayout r)).

(** [realCursor.line() == line() && realCursor.column() >= startCol() &&
    (!wrap() || realCursor.column() < endCol())] *)
Definition includesCursor (h : heap) (r : t) (realCursor : Cursor) : bool :=
  (c_line realCursor =? line h r)
  && (c_column realCursor >=? startCol h r)
  && (negb (wrap h r) || (c_column realCursor <? endCol h r)).

(** *** The free comparison operators against a cursor *)

Definition op_gt (h : heap) (r : t) (c : Cursor) : bool :=
  (line h r >? c_line c) || (endCol h r >? c_column c).

Definition op_ge (h : heap) (r : t) (c : Cursor) : bool :=
  (line h r >? c_line c) || (endCol h r >=? c_column c).

Definition op_lt (h : heap) (r : t) (c : Cursor) : bool :=
  (line h r <? c_line c) || (startCol h r <? c_column c).

Definition op_le (h : heap) (r : t) (c : Cursor) : bool :=
  (line h r <? c_line c) || (startCol h r <=? c_column c).

(** *** Members that write

    The world a member runs in: the store of line layouts and the object
    itself ([*this]). *)
Record World := mkWorld { w_heap : heap; w_this : t }.

Definition M (A : Type) : Type := World → A * World.

Definition ret {A} (a : A) : M A := λ w, (a, w).

Definition bind {A B} (m : M A) (k : A → M B) : M B :=
  λ w, let '(a, w') := m w in k a w'.

Notation "'let*' x ':=' m 'in' k" := (bind m (λ x, k))
  (at level 10, x name, m at level 100, k at level 200).

(** A [const] member that only reads. *)
Definition read {A} (f : heap → t → A) : M A :=
  λ w, (f (w_heap w) (w_this w), w).

(** Assignment to the [mutable] field [m_startX]. *)
Definition write_startX (x : Z) : M unit :=
  λ w, (tt, mkWorld (w_heap w) (set_startX (w_this w) x)).

(** A call of a non-const member of the owner, which is replaced in the
    store by its new state.  Nothing happens on a null pointer. *)
Definition call_owner {A} (dflt : A) (f : KateLineLayout.t → A * KateLineLayout.t)
  : M A :=
  λ w, match m_lineLayout (w_this w) with
       | Some p =>
           let '(a, l') := f (deref (w_heap w) (w_this w)) in
           (a, mkWorld (<[p := l']> (w_heap w)) (w_this w))
       | None => (dflt, w)
       end.

(** The body of [for (int i = 0; i < viewLine(); ++i) m_startX +=
    m_lineLayout->layout()->lineAt(i).naturalTextWidth();] as a fold over
    the indices [0 .. viewLine()-1], starting from the current [m_startX];
    every [+=] stores an [int]. *)
Definition startX_loop (l : KateLineLayout.t) (upto : Z) (acc : Z) : Z :=
  foldl (λ x i, addAssign x (naturalTextWidth (KateLineLayout.lineAt l i)))
        acc (seqZ 0 upto).

(** [startX()]: the cache is filled when it still holds the sentinel -1. *)
Definition startX : M Z :=
  let* valid := read isValid in
  if negb valid then ret 0
  else
    let* cached := read (λ _ r, m_startX r) in
    let* _ := (if cached =? -1
               then
                 let* x := read (λ h r, startX_loop (deref h r) (viewLine h r)
                                                    (m_startX r)) in
                 write_startX x
               else ret tt) in
    read (λ _ r, m_startX r).

(** [return startX() ? m_lineLayout->shiftX() : 0;] *)
Definition xOffset : M Z :=
  let* valid := read isValid in
  if negb valid then ret 0
  else
    let* x := startX in
    if negb (x =? 0) then read (λ h r, KateLineLayout.shiftX (deref h r))
    else ret 0.

(** [return m_lineLayout->setDirty(viewLine(), dirty);] *)
Definition setDirty (dirty : bool) : M bool :=
  let* valid := read isValid in
  if negb valid then ret true
  else
    let* v := read viewLine in
    call_owner true (λ l, KateLineLayout.setDirty l v dirty).

(** *** The public interface as one type of calls *)

Inductive Query :=
| QisValid | QisDirty | QsetDirty (dirty : bool) | QincludesCursor (c : Cursor)
| QxOffset | Qline | QvirtualLine | QviewLine
| QstartCol | Qstart | QendCol | Qend | Qlength | QisEmpty | Qwrap
| QstartX | QendX | Qwidth | QlineLayout | QkateLineLayout
| Qgt (c : Cursor) | Qge (c : Cursor) | Qlt (c : Cursor) | Qle (c : Cursor).

Inductive Answer :=
| Abool (b : bool) | Aint (z : Z) | Acursor (c : Cursor)
| Atextline (q : QTextLine) | Aptr (p : option addr).

Definition call (q : Query) : M Answer :=
  match q with
  | QisValid => let* b := read isValid in ret (Abool b)
  | QisDirty => let* b := read isDirty in ret (Abool b)
  | QsetDirty d => let* b := setDirty d in ret (Abool b)
  | QincludesCursor c => let* b := read (λ h r, includesCursor h r c) in ret (Abool b)
  | QxOffset => let* z := xOffset in ret (Aint z)
  | Qline => let* z := read line in ret (Aint z)
  | QvirtualLine => let* z := read virtualLine in ret (Aint z)
  | QviewLine => let* z := read viewLine in ret (Aint z)
  | QstartCol => let* z := read startCol in ret (Aint z)
  | Qstart => let* c := read start in ret (Acursor c)
  | QendCol => let* z := read endCol in ret (Aint z)
  | Qend => let* c := read end_ in ret (Acursor c)
  | Qlength => let* z := read length in ret (Aint z)
  | QisEmpty => let* b := read isEmpty in ret (Abool b)
  | Qwrap => let* b := read wrap in ret (Abool b)
  | QstartX => let* z := startX in ret (Aint z)
  | QendX => let* z := read endX in ret (Aint z)
  | Qwidth => let* z := read width in ret (Aint z)
  | QlineLayout => let* q := read (λ _ r, lineLayout r) in ret (Atextline q)
  | QkateLineLayout => let* p := read (λ _ r, kateLineLayout r) in ret (Aptr p)
  | Qgt c => let* b := read (λ h r, op_gt h r c) in ret (Abool b)
  | Qge c => let* b := read (λ h r, op_ge h r c) in ret (Abool b)
  | Qlt c => let* b := read (λ h r, op_lt h r c) in ret (Abool b)
  | Qle c => let* b := read (λ h r, op_le h r c) in ret (Abool b)
  end.

(** One step in the life of an object: a call on it, or any change of the
    store made from outside while the object is kept. *)
Inductive step : World → World → Prop :=
| step_call (q : Query) (w : World) : step w (snd (call q w))
| step_store (w : World) (h' : heap) : step w (mkWorld h' (w_this w)).

(** The worlds an object can find itself in later on. *)
Definition later : World → World → Prop := rtc step.

End KateTextLayout.

(** * The language-server tooltip

    A shallow embedding of [src/addons/lspclient/lsptooltip.cpp]: where the
    tooltip is put on the screen ([Tooltip::place]), when it goes away (the
    event handlers of [Tooltip]) and how many of them there are
    ([LspTooltip::show]).  The text, the colours and the size of the widget
    are the toolkit's and are left out. *)

(** [QPoint] and [QRect] with the getters the code uses. *)
Record QPoint := mkQPoint { p_x : Z; p_y : Z }.

Record QRect := mkQRect { r_x : Z; r_y : Z; r_width : Z; r_height : Z }.

(** The event types [Tooltip::eventFilter] tells apart; every other type
    falls under [default:]. *)
Inductive QEventType :=
| KeyPress | KeyRelease
| WindowActivate | WindowDeactivate | FocusOut | FocusIn
| MouseMove
| MouseButtonPress | MouseButtonRelease | MouseButtonDblClick | Wheel
| OtherEvent.

Module Tooltip.

(** [p.x() + width() > screen.x() + screen.width()] and its vertical twin. *)
Definition beyondRight (screen : QRect) (width : Z) (p : QPoint) : bool :=
  p_x p + width >? r_x screen + r_width screen.

Definition beyondBottom (screen : QRect) (height : Z) (p : QPoint) : bool :=
  p_y p + height >? r_y screen + r_height screen.

(** [screenForTooltip = QApplication::screenAt(p); if (!screenForTooltip)
    screenForTooltip = screen();] and then [availableGeometry()].
    [screenAt] is null when no screen holds the point; [ownScreen] is the
    available geometry of the widget's own [screen()]. *)
Definition screenForTooltip (screenAt : QPoint → option QRect)
    (ownScreen : QRect) (p : QPoint) : QRect :=
  match screenAt p with
  | Some s => s
  | None => ownScreen
  end.

(** [place(QPoint p)]: the point the tooltip is moved to; [width] and
    [height] are the widget's. *)
Definition place (isPlatformWayland : bool) (screenAt : QPoint → option QRect)
    (ownScreen : QRect) (width height : Z) (p : QPoint) : QPoint :=
  let offset := mkQPoint 3 21 in
  let p := mkQPoint (p_x p + p_x offset) (p_y p + p_y offset) in
  if isPlatformWayland then p
  else
    let screen := screenForTooltip screenAt ownScreen p in
    let p := if beyondRight screen width p
             then mkQPoint (p_x p - (4 + width)) (p_y p) else p in
    let p := if beyondBottom screen height p
             then mkQPoint (p_x p) (p_y p - (24 + height)) else p in
    let p := if p_y p <? r_y screen
             then mkQPoint (p_x p) (r_y screen) else p in
    let p := if beyondRight screen width p
             then mkQPoint (r_x screen + r_width screen - width) (p_y p) else p in
    let p := if p_x p <? r_x screen
             then mkQPoint (r_x screen) (p_y p) else p in
    let p := if beyondBottom screen height p
             then mkQPoint (p_x p) (r_y screen + r_height screen - height) else p in
    p.

(** The fields the event handlers read and write: [inContextMenu],
    whether [m_hideTimer] is running, [m_manual], and whether
    [deleteLater()] has been called on the widget. *)
Record t := mk {
  inContextMenu : bool;
  m_hideTimer_isActive : bool;
  m_manual : bool;
  deleteLater_called : bool
}.

(** [Tooltip(parent, manual)]: [inContextMenu = false], the timer is not
    started. *)
Definition new (manual : bool) : t := mk false false manual false.

(** [hideTooltip()]: [deleteLater();] *)
Definition hideTooltip (s : t) : t :=
  mk (inContextMenu s) (m_hideTimer_isActive s) (m_manual s) true.

(** [hideTooltipWithDelay()]: [m_hideTimer.start(100);] *)
Definition hideTooltipWithDelay (s : t) : t :=
  mk (inContextMenu s) true (m_manual s) (deleteLater_called s).

(** [eventFilter(QObject *, QEvent *e)].  The three booleans are what the
    handler asks of its surroundings: [m_view->hasFocus()], [hasFocus()] and
    [rect().contains(e->pos())]. *)
Definition eventFilter (s : t) (type : QEventType)
    (view_hasFocus hasFocus rect_contains_pos : bool) : bool * t :=
  let s' :=
    match type with
    | KeyPress => hideTooltip s
    | WindowActivate | WindowDeactivate | FocusOut | FocusIn =>
        if negb (inContextMenu s) && negb view_hasFocus
        then hideTooltip s else s
    | MouseMove =>
        if negb (m_manual s) && negb hasFocus
        then hideTooltipWithDelay s else s
    | MouseButtonPress | MouseButtonRelease | MouseButtonDblClick | Wheel =>
        if negb rect_contains_pos then hideTooltip s else s
    | _ => s
    end in
  (false, s').

(** [enterEvent]: [inContextMenu = false; m_hideTimer.stop();] *)
Definition enterEvent (s : t) : t :=
  mk false false (m_manual s) (deleteLater_called s).

(** [leaveEvent]: [if (!m_hideTimer.isActive() && !inContextMenu)
    hideTooltip();] *)
Definition leaveEvent (s : t) : t :=
  if negb (m_hideTimer_isActive s) && negb (inContextMenu s)
  then hideTooltip s else s.

(** [mouseMoveEvent]: handed to the base class or dropped. *)
Definition mouseMoveEvent (s : t) : t := s.

(** [contextMenuEvent]: [inContextMenu = true;] *)
Definition contextMenuEvent (s : t) : t :=
  mk true (m_hideTimer_isActive s) (m_manual s) (deleteLater_called s).

(** What can happen to a tooltip: one of its handlers runs, or the running
    timer fires, which the constructor has connected to [hideTooltip]. *)
Inductive Event :=
| Efilter (type : QEventType) (view_hasFocus hasFocus rect_contains_pos : bool)
| Eenter | Eleave | EmouseMove | EcontextMenu | Etimeout.

Definition handle (s : t) (e : Event) : t :=
  match e with
  | Efilter ty vf hf inside => snd (eventFilter s ty vf hf inside)
  | Eenter => enterEvent s
  | Eleave => leaveEvent s
  | EmouseMove => mouseMoveEvent s
  | EcontextMenu => contextMenuEvent s
  | Etimeout => hideTooltip s
  end.

(** The timer fires only while it is running. *)
Definition enabled (s : t) (e : Event) : bool :=
  match e with
  | Etimeout => m_hideTimer_isActive s
  | _ => true
  end.

Inductive step : t → t → Prop :=
| step_event (s : t) (e : Event) : enabled s e = true → step s (handle s e).

(** The events that neither hide a tooltip nor start its timer nor close
    its context menu state: all but a key press, a press, release, double
    click or wheel outside the tooltip, a filtered mouse move on a tooltip
    that is not manual and has no focus, and the pointer entering. *)
Definition quiet (s : t) (e : Event) : bool :=
  match e with
  | Efilter KeyPress _ _ _ => false
  | Efilter (MouseButtonPress | MouseButtonRelease | MouseButtonDblClick
             | Wheel) _ _ rect_contains_pos => rect_contains_pos
  | Efilter MouseMove _ hasFocus _ => m_manual s || hasFocus
  | Efilter _ _ _ _ => true
  | Eenter => false
  | Eleave | EmouseMove | EcontextMenu | Etimeout => true
  end.

(** A step by a quiet event that can happen. *)
Inductive quietStep : t → t → Prop :=
| quiet_event (s : t) (e : Event) :
    enabled s e = true → quiet s e = true → quietStep s (handle s e).

End Tooltip.

Module LspTooltip.

(** The tooltips alive, by address, and [static QPointer<Tooltip> tooltip],
    which is null or the address of a tooltip alive: a [QPointer] goes null
    when its object is deleted. *)
Record World := mkWorld {
  alive : gmap positive Tooltip.t;
  tooltip : option positive
}.

(** Deletion of the object at [a]. *)
Definition destroy (a : positive) (w : World) : World :=
  mkWorld (delete a (alive w))
          (if decide (tooltip w = Some a) then None else tooltip w).

(** [show(text, pos, v, manual)], as far as the tooltips alive and their
    flags go: [text_isEmpty] is [text.isEmpty()], [v_ok] is
    [v && v->document()]. *)
Definition show (text_isEmpty v_ok manual : bool) (w : World) : World :=
  if text_isEmpty then w
  else if negb v_ok then w
  else
    let w := match tooltip w with
             | Some a => destroy a w
             | None => w
             end in
    let a := fresh (dom (alive w)) in
    mkWorld (<[a := Tooltip.new manual]> (alive w)) (Some a).

(** What happens between two returns to the event loop: a request to show a
    tooltip, an event for a tooltip alive, or the deferred deletion of a
    tooltip on which [deleteLater()] has been called. *)
Inductive step : World → World → Prop :=
| step_show (w : World) (text_isEmpty v_ok manual : bool) :
    step w (show text_isEmpty v_ok manual w)
| step_event (w : World) (a : positive) (s : Tooltip.t) (e : Tooltip.Event) :
    alive w !! a = Some s → Tooltip.enabled s e = true →
    step w (mkWorld (<[a := Tooltip.handle s e]> (alive w)) (tooltip w))
| step_deleted (w : World) (a : positive) (s : Tooltip.t) :
    alive w !! a = Some s → Tooltip.deleteLater_called s = true →
    step w (destroy a w).

(** Before the first request: no tooltip, the pointer is null. *)
Definition initial : World := mkWorld ∅ None.

End LspTooltip.

Import KateTextLayout.

(** ** Reference notions and sample data *)

(** The cumulative natural width of a list of runs, [w_0 + ... + w_(n-1)],
    as the rational it is. *)
Fixpoint widthsSum (qs : list QTextLine) : Q :=
  match qs with
  | [] => inject_Z 0
  | q :: qs => (naturalTextWidth q + widthsSum qs)%Q
  end.

(** The runs before view line [i], first run first. *)
Definition runsBefore (l : KateLineLayout.t) (i : Z) : list QTextLine :=
  take (Z.to_nat i) (KateLineLayout.m_layout l).

(** The cumulative natural width of the runs before view line [i]. *)
Definition widthBefore (l : KateLineLayout.t) (i : Z) : Q :=
  widthsSum (runsBefore l i).

(** The widths of a list of runs added one after the other, first run
    first, to an [int] that starts at [c]; each sum is stored as an
    [int]. *)
Definition accumulated (c : Z) (qs : list QTextLine) : Z :=
  foldl (λ x q, addAssign x (naturalTextWidth q)) c qs.

(** A run whose natural width is a whole number of pixels. *)
Definition wholeWidth (q : QTextLine) : Prop :=
  ∃ z : Z, (naturalTextWidth q == inject_Z z)%Q.

(** The value the member [startX()] answers in a world. *)
Definition startX_of (h : heap) (r : t) : Z := fst (startX (mkWorld h r)).

(** The value the member [xOffset()] answers in a world. *)
Definition xOffset_of (h : heap) (r : t) : Z := fst (xOffset (mkWorld h r)).

(** Two states of one object that differ at most in the cache. *)
Definition sameButCache (r r' : t) : Prop :=
  m_lineLayout r' = m_lineLayout r ∧ m_viewLine r' = m_viewLine r
  ∧ m_textLayout r' = m_textLayout r.

(** Two states of one line layout that differ at most in the dirty flag of
    view line [i]. *)
Definition onlyDirtyFlagDiffers (i : Z) (l l' : KateLineLayout.t) : Prop :=
  KateLineLayout.m_valid l' = KateLineLayout.m_valid l
  ∧ KateLineLayout.m_line l' = KateLineLayout.m_line l
  ∧ KateLineLayout.m_virtualLine l' = KateLineLayout.m_virtualLine l
  ∧ KateLineLayout.m_layout l' = KateLineLayout.m_layout l
  ∧ KateLineLayout.m_shiftX l' = KateLineLayout.m_shiftX l
  ∧ Datatypes.length (KateLineLayout.m_dirtyList l')
    = Datatypes.length (KateLineLayout.m_dirtyList l)
  ∧ ∀ j : nat, Z.of_nat j ≠ i →
      KateLineLayout.m_dirtyList l' !! j = KateLineLayout.m_dirtyList l !! j.

(** A document line 3 wrapped into two runs, columns [0,5) and [5,10), of
    natural widths 10 and 20, continuation rows indented by 4. *)
Definition sampleLine : KateLineLayout.t :=
  KateLineLayout.mk true 3 3
    [mkQTextLine 0 5 (inject_Z 10); mkQTextLine 5 5 (inject_Z 20)] 4
    [false; false].

(** The same wrap on document line 5. *)
Definition sampleLine5 : KateLineLayout.t :=
  KateLineLayout.mk true 5 5
    [mkQTextLine 0 5 (inject_Z 10); mkQTextLine 5 5 (inject_Z 20)] 4
    [false; false].

(** Three runs of widths 10, 20 and 7. *)
Definition sampleLine3 : KateLineLayout.t :=
  KateLineLayout.mk true 3 3
    [mkQTextLine 0 5 (inject_Z 10); mkQTextLine 5 5 (inject_Z 20);
     mkQTextLine 10 2 (inject_Z 7)] 4
    [false; false; false].

(** A wrapped line whose first run is an empty row of width 0. *)
Definition sampleLineZero : KateLineLayout.t :=
  KateLineLayout.mk true 8 8
    [mkQTextLine 0 0 (inject_Z 0); mkQTextLine 0 5 (inject_Z 20)] 4
    [false; false].

(** Three runs of widths 1/2, 20 3/4 and 7 1/4. *)
Definition sampleLineFrac : KateLineLayout.t :=
  KateLineLayout.mk true 9 9
    [mkQTextLine 0 1 (1 # 2); mkQTextLine 1 5 (83 # 4); mkQTextLine 6 2 (29 # 4)]
    4 [false; false; false].

Definition sampleHeap : heap :=
  {[ 1%positive := sampleLine; 2%positive := sampleLine5;
     3%positive := sampleLine3; 4%positive := sampleLineZero;
     5%positive := sampleLineFrac ]}.

(** A 1920 by 1080 screen at the origin, and a point no screen holds. *)
Definition sampleScreen : QRect := mkQRect 0 0 1920 1080.

Definition sampleScreenAt (p : QPoint) : option QRect :=
  if (0 <=? p_x p) && (p_x p <? 1920) && (0 <=? p_y p) && (p_y p <? 1080)
  then Some sampleScreen else None.

(** ** Basic facts *)

Section basics.
Context (h : heap).
Implicit Types (r : t) (l : KateLineLayout.t) (p : addr).

Lemma isValid_spec r :
  isValid h r = true ↔
  ∃ p l, m_lineLayout r = Some p ∧ h !! p = Some l
         ∧ KateLineLayout.isValid l = true
         ∧ 0 ≤ m_viewLine r < KateLineLayout.viewLineCount l.
Proof.
  unfold isValid, deref, owner.
  rewrite !andb_true_iff, bool_decide_eq_true, Z.geb_le, Z.ltb_lt.
  split.
  - intros [[[[l Hl] Hv] H0] Hn].
    destruct (m_lineLayout r) as [p|]; [|done].
    exists p, l. rewrite Hl in Hv, Hn. simpl in *. done.
  - intros (p & l & -> & -> & Hv & H0 & Hn). simpl. eauto.
Qed.

Lemma isValid_owner r p l :
  isValid h r = true → m_lineLayout r = Some p → h !! p = Some l →
  deref h r = l ∧ KateLineLayout.isValid l = true
  ∧ 0 ≤ m_viewLine r < KateLineLayout.viewLineCount l.
Proof.
  intros (p' & l' & Hp & Hl & Hv & Hr)%isValid_spec Hp' Hl'.
  unfold deref, owner. rewrite Hp', Hl'. by simplify_eq.
Qed.

(** Validity looks at the pointer and the index only. *)
Lemma isValid_fields r r' :
  m_lineLayout r = m_lineLayout r' → m_viewLine r = m_viewLine r' →
  isValid h r = isValid h r'.
Proof. unfold isValid, deref, owner. by intros -> ->. Qed.

Lemma new_lineLayout o i : m_lineLayout (new h o i) = o.
Proof. unfold new. by case_match. Qed.

Lemma new_viewLine o i : m_viewLine (new h o i) = i.
Proof. unfold new. by case_match. Qed.

Lemma new_startX o i : m_startX (new h o i) = if i =? 0 then 0 else -1.
Proof. unfold new. by case_match. Qed.

Lemma isValid_new o i :
  isValid h (new h o i) = isValid h (mk o i (if i =? 0 then 0 else -1) QTextLine_null).
Proof. apply isValid_fields; [apply new_lineLayout | apply new_viewLine]. Qed.

Lemma viewLine_valid r : isValid h r = true → viewLine h r = m_viewLine r.
Proof. unfold viewLine. by intros ->. Qed.

End basics.

(** ** The lazy start-X computation *)

Section startX_facts.
Implicit Types (h : heap) (r : t) (l : KateLineLayout.t) (p : addr).

(** Truncation of a whole number, however the rational is written. *)
Lemma toInt_whole (x : Q) (z : Z) : (x == inject_Z z)%Q → toInt x = z.
Proof.
  unfold Qeq, toInt. simpl. intros H. rewrite Z.mul_1_r in H. rewrite H.
  by apply Z.quot_mul.
Qed.

Lemma addAssign_whole (x : Z) (w : Q) (z : Z) :
  (w == inject_Z z)%Q → addAssign x w = x + z.
Proof.
  intros H. unfold addAssign. apply toInt_whole.
  rewrite H, inject_Z_plus. reflexivity.
Qed.

(** Adding a width that is not negative to an [int] that is not negative
    drops the fraction of the width only. *)
Lemma addAssign_nonneg (x : Z) (w : Q) :
  0 ≤ x → (0 <= w)%Q → addAssign x w = x + toInt w.
Proof.
  destruct w as [n d]. unfold QArith_base.Qle, addAssign, toInt. simpl.
  rewrite Z.mul_1_r. intros Hx Hn.
  rewrite !Z.quot_div_nonneg by lia.
  change (1 * d)%positive with d. by rewrite Z.div_add_l.
Qed.

(** On whole widths the accumulated value is the start value plus the
    cumulative width. *)
Lemma accumulated_whole (c : Z) (qs : list QTextLine) :
  Forall wholeWidth qs →
  (inject_Z (accumulated c qs) == inject_Z c + widthsSum qs)%Q.
Proof.
  intros Hqs. revert c. induction Hqs as [|q qs [z Hz] _ IH]; intros c.
  - simpl. ring.
  - unfold accumulated in *. simpl.
    rewrite IH, (addAssign_whole c _ z Hz), inject_Z_plus, Hz. ring.
Qed.

Lemma accumulated_app c qs qs' :
  accumulated c (qs ++ qs') = accumulated (accumulated c qs) qs'.
Proof. unfold accumulated. apply foldl_app. Qed.

Lemma startX_loop_nat l (n : nat) acc :
  (n ≤ Datatypes.length (KateLineLayout.m_layout l))%nat →
  startX_loop l (Z.of_nat n) acc = accumulated acc (runsBefore l (Z.of_nat n)).
Proof.
  unfold startX_loop, runsBefore. rewrite Nat2Z.id.
  induction n as [|n IH]; intros Hn.
  - done.
  - rewrite seqZ_S, foldl_app. simpl. rewrite IH by lia.
    destruct (lookup_lt_is_Some_2 (KateLineLayout.m_layout l) n) as [q Hq]; [lia|].
    rewrite (take_S_r _ _ _ Hq), accumulated_app. simpl.
    unfold KateLineLayout.lineAt.
    rewrite bool_decide_eq_true_2 by lia.
    by rewrite Z.add_0_l, Nat2Z.id, Hq.
Qed.

(** The loop adds the widths of the runs before [i], first run first, to
    the value the cache held on entry. *)
Lemma startX_loop_accumulated l i acc :
  0 ≤ i ≤ KateLineLayout.viewLineCount l →
  startX_loop l i acc = accumulated acc (runsBefore l i).
Proof.
  unfold KateLineLayout.viewLineCount. intros Hi.
  rewrite <- (Z2Nat.id i) by lia. apply startX_loop_nat. lia.
Qed.

(** What one call of [startX()] does on a valid object. *)
Lemma startX_valid h r :
  isValid h r = true →
  startX (mkWorld h r) =
    if m_startX r =? -1
    then let x := startX_loop (deref h r) (m_viewLine r) (m_startX r) in
         (x, mkWorld h (set_startX r x))
    else (m_startX r, mkWorld h r).
Proof.
  intros Hv. unfold startX, bind, read, ret, write_startX. simpl.
  rewrite Hv. simpl.
  destruct (m_startX r =? -1); simpl; [|done].
  by rewrite (viewLine_valid _ _ Hv).
Qed.

Lemma startX_invalid h r :
  isValid h r = false → startX (mkWorld h r) = (0, mkWorld h r).
Proof.
  intros Hv. unfold startX, bind, read, ret. simpl. by rewrite Hv.
Qed.

(** The value answered by [startX()] on a valid object in terms of the
    cache on entry. *)
Lemma startX_of_valid h r p l :
  isValid h r = true → m_lineLayout r = Some p → h !! p = Some l →
  startX_of h r =
    if m_startX r =? -1
    then accumulated (m_startX r) (runsBefore l (m_viewLine r))
    else m_startX r.
Proof.
  intros Hv Hp Hl. unfold startX_of. rewrite (startX_valid _ _ Hv).
  destruct (isValid_owner _ _ _ _ Hv Hp Hl) as (-> & _ & Hr).
  destruct (m_startX r =? -1); simpl; [|done].
  apply startX_loop_accumulated. lia.
Qed.

(** A freshly constructed object on a valid owner, index in range. *)
Lemma isValid_new_in_range h p l i :
  h !! p = Some l → KateLineLayout.isValid l = true →
  0 ≤ i < KateLineLayout.viewLineCount l →
  isValid h (new h (Some p) i) = true.
Proof.
  intros Hl Hv Hi. apply isValid_spec. exists p, l.
  rewrite new_lineLayout, new_viewLine. done.
Qed.

(** On a fresh continuation run the sentinel is the starting value of the
    sum. *)
Lemma startX_of_new h p l i :
  h !! p = Some l → KateLineLayout.isValid l = true →
  0 < i < KateLineLayout.viewLineCount l →
  startX_of h (new h (Some p) i) = accumulated (-1) (runsBefore l i).
Proof.
  intros Hl Hv Hi.
  rewrite (startX_of_valid h _ p l); [|by apply (isValid_new_in_range h p l); [..|lia]
                                      |apply new_lineLayout|done].
  rewrite new_startX, new_viewLine.
  destruct (i =? 0) eqn:E; [lia|]. done.
Qed.

End startX_facts.

(** ** Validity *)

(** C6. [isValid()] answers true exactly when the owner pointer is not null,
    the owner is itself valid and the view line index lies in
    [0, viewLineCount()); hence an object freshly constructed on a valid line
    layout with an index in that range is valid. *)
Theorem C6_isValid_iff_owner_and_range (h : heap) :
  (∀ r, isValid h r = true ↔
        ∃ p l, m_lineLayout r = Some p ∧ h !! p = Some l
               ∧ KateLineLayout.isValid l = true
               ∧ 0 ≤ m_viewLine r < KateLineLayout.viewLineCount l)
  ∧ (∀ p l i, h !! p = Some l → KateLineLayout.isValid l = true →
              0 ≤ i < KateLineLayout.viewLineCount l →
              isValid h (new h (Some p) i) = true).
Proof.
  split.
  - apply isValid_spec.
  - intros p l i. apply isValid_new_in_range.
Qed.

Lemma C6_witness :
  sampleHeap !! 1%positive = Some sampleLine
  ∧ KateLineLayout.isValid sampleLine = true
  ∧ 0 ≤ 1 < KateLineLayout.viewLineCount sampleLine
  ∧ isValid sampleHeap (new sampleHeap (Some 1%positive) 1) = true.
Proof.
  assert (H1 : sampleHeap !! 1%positive = Some sampleLine) by reflexivity.
  assert (H2 : KateLineLayout.isValid sampleLine = true) by reflexivity.
  assert (H3 : 0 ≤ 1 < KateLineLayout.viewLineCount sampleLine)
    by (vm_compute; split; [discriminate | reflexivity]).
  exact (conj H1 (conj H2 (conj H3
           (proj2 (C6_isValid_iff_owner_and_range sampleHeap)
                  1%positive sampleLine 1 H1 H2 H3)))).
Defined.

(** An object constructed on a null or dead owner, on an owner that is not
    valid, or with an index outside the owner's view lines, is not valid. *)
Lemma isValid_new_out_of_range h o i :
  (∀ p l, o = Some p → h !! p = Some l →
          KateLineLayout.isValid l = false ∨ i < 0
          ∨ KateLineLayout.viewLineCount l ≤ i) →
  isValid h (new h o i) = false.
Proof.
  intros Hout. destruct (isValid h (new h o i)) eqn:Hv; [|done].
  apply isValid_spec in Hv as (p & l & Hp & Hl & Hlv & Hi).
  rewrite new_lineLayout in Hp. rewrite new_viewLine in Hi.
  destruct (Hout p l Hp Hl) as [?|[?|?]]; [congruence|lia|lia].
Qed.

Lemma xOffset_invalid h r :
  isValid h r = false → xOffset (mkWorld h r) = (0, mkWorld h r).
Proof.
  intros Hv. unfold xOffset, bind, read, ret. simpl. by rewrite Hv.
Qed.

(** C5. On an object that is not valid no query fails and each answers its
    neutral default: 0 for [startCol], [endCol], [length], [startX], [endX],
    [width], [xOffset] and [viewLine], false for [wrap], -1 for [line] and
    [virtualLine]; [startX] and [xOffset] leave the world as it was.  Every
    object constructed on a null or dead owner, on an owner that is not
    valid, or with a negative index or an index of at least
    [viewLineCount()] is such an object. *)
Theorem C5_invalid_answers_neutral_defaults (h : heap) :
  (∀ r, isValid h r = false →
        startCol h r = 0 ∧ endCol h r = 0 ∧ length h r = 0
        ∧ startX (mkWorld h r) = (0, mkWorld h r)
        ∧ endX h r = 0 ∧ width h r = 0
        ∧ xOffset (mkWorld h r) = (0, mkWorld h r)
        ∧ viewLine h r = 0 ∧ wrap h r = false
        ∧ line h r = -1 ∧ virtualLine h r = -1)
  ∧ (∀ o i, (∀ p l, o = Some p → h !! p = Some l →
                    KateLineLayout.isValid l = false ∨ i < 0
                    ∨ KateLineLayout.viewLineCount l ≤ i) →
            isValid h (new h o i) = false).
Proof.
  split.
  - intros r Hv.
    unfold startCol, endCol, length, endX, width, viewLine, wrap, line,
      virtualLine.
    rewrite (startX_invalid _ _ Hv), (xOffset_invalid _ _ Hv), Hv. simpl.
    repeat split.
  - apply isValid_new_out_of_range.
Qed.

Lemma C5_witness :
  isValid sampleHeap (new sampleHeap (Some 1%positive) 2) = false
  ∧ startCol sampleHeap (new sampleHeap (Some 1%positive) 2) = 0
  ∧ startX (mkWorld sampleHeap (new sampleHeap (Some 1%positive) 2))
    = (0, mkWorld sampleHeap (new sampleHeap (Some 1%positive) 2))
  ∧ line sampleHeap (new sampleHeap (Some 1%positive) 2) = -1.
Proof.
  assert (Hout : ∀ p l, Some 1%positive = Some p → sampleHeap !! p = Some l →
                        KateLineLayout.isValid l = false ∨ 2 < 0
                        ∨ KateLineLayout.viewLineCount l ≤ 2).
  { intros p l [= <-] Hl. vm_compute in Hl. injection Hl as <-.
    right; right. vm_compute. discriminate. }
  pose proof (proj2 (C5_invalid_answers_neutral_defaults sampleHeap) _ _ Hout)
    as Hv.
  pose proof (proj1 (C5_invalid_answers_neutral_defaults sampleHeap) _ Hv)
    as (H1 & _ & _ & H4 & _ & _ & _ & _ & _ & H10 & _).
  exact (conj Hv (conj H1 (conj H4 H10))).
Defined.

(** C10. On an object that is not valid, [isDirty()], [setDirty(d)] for
    either [d] and [isEmpty()] answer true; [setDirty] does not reach any
    owner, the world is left as it was. *)
Theorem C10_invalid_reads_dirty_and_empty (h : heap) (r : t) (d : bool) :
  isValid h r = false →
  isDirty h r = true
  ∧ setDirty d (mkWorld h r) = (true, mkWorld h r)
  ∧ isEmpty h r = true.
Proof.
  intros Hv. unfold isDirty, isEmpty, setDirty, bind, read, ret. simpl.
  rewrite Hv. simpl. done.
Qed.

Lemma C10_witness :
  isValid sampleHeap (new sampleHeap None 0) = false
  ∧ isDirty sampleHeap (new sampleHeap None 0) = true
  ∧ setDirty false (mkWorld sampleHeap (new sampleHeap None 0))
    = (true, mkWorld sampleHeap (new sampleHeap None 0))
  ∧ isEmpty sampleHeap (new sampleHeap None 0) = true.
Proof.
  split; [reflexivity|].
  apply (C10_invalid_reads_dirty_and_empty sampleHeap (new sampleHeap None 0) false).
  reflexivity.
Defined.

(** ** Horizontal positions *)

(** C1, as the spec states it, fails on the second run of a line wrapped
    into runs of widths 10 and 20 with a shift of 4: the runs before it are
    10 wide, the spec's value is 10 + 4, and [startX()] answers 9. *)
Lemma C1_counterexample :
  isValid sampleHeap (new sampleHeap (Some 1%positive) 1) = true
  ∧ 0 < viewLine sampleHeap (new sampleHeap (Some 1%positive) 1)
  ∧ startX_of sampleHeap (new sampleHeap (Some 1%positive) 1) = 9
  ∧ (widthBefore sampleLine 1 + inject_Z (KateLineLayout.shiftX sampleLine)
     == inject_Z 14)%Q
  ∧ ¬ (inject_Z (startX_of sampleHeap (new sampleHeap (Some 1%positive) 1))
       == widthBefore sampleLine 1
          + inject_Z (KateLineLayout.shiftX sampleLine))%Q.
Proof. vm_compute. repeat split; discriminate. Qed.

(** Changing the owner's shift changes neither its runs nor its validity. *)
Lemma isValid_setShiftX h p l s r :
  h !! p = Some l →
  isValid (<[p := KateLineLayout.setShiftX l s]> h) r = isValid h r.
Proof.
  intros Hl. unfold isValid, deref, owner.
  destruct (m_lineLayout r) as [p'|]; [|done].
  destruct (decide (p = p')) as [<-|Hne].
  - rewrite lookup_insert_eq, Hl. done.
  - by rewrite lookup_insert_ne.
Qed.

(** C1 (amended). [startX()] of a continuation run is accumulated from the
    natural widths of all the runs before it, the first run first, and from
    nothing else: each width is added in turn to the [int] cache, the sum
    being cut to an [int] at every step, from a start value that is the same
    for every line, run and shift; the owner's [shiftX()] is not added, and
    [startX()] is the same whatever [shiftX()] is.  When the widths are
    whole numbers, [startX()] is [w_0 + ... + w_(viewLine-1)] plus that
    fixed start value. *)
Theorem C1_startX_accumulates_widths_without_shift :
  ∃ c : Z,
    ∀ (h : heap) (p : addr) (l : KateLineLayout.t) (i s : Z),
      h !! p = Some l → KateLineLayout.isValid l = true →
      0 < i < KateLineLayout.viewLineCount l →
      startX_of h (new h (Some p) i) = accumulated c (runsBefore l i)
      ∧ startX_of (<[p := KateLineLayout.setShiftX l s]> h)
                  (new (<[p := KateLineLayout.setShiftX l s]> h) (Some p) i)
        = startX_of h (new h (Some p) i)
      ∧ (Forall wholeWidth (runsBefore l i) →
         (inject_Z (startX_of h (new h (Some p) i))
          == widthBefore l i + inject_Z c)%Q).
Proof.
  exists (-1). intros h p l i s Hl Hv Hi.
  rewrite (startX_of_new h p l i) by done.
  split; [done|]. split.
  - by rewrite (startX_of_new _ p (KateLineLayout.setShiftX l s) i);
      [|apply lookup_insert_eq|..].
  - intros Hw. rewrite (accumulated_whole _ _ Hw). unfold widthBefore. ring.
Qed.

Lemma C1_witness :
  ∃ c : Z,
    sampleHeap !! 3%positive = Some sampleLine3
    ∧ KateLineLayout.isValid sampleLine3 = true
    ∧ 0 < 2 < KateLineLayout.viewLineCount sampleLine3
    ∧ Forall wholeWidth (runsBefore sampleLine3 2)
    ∧ startX_of sampleHeap (new sampleHeap (Some 3%positive) 2)
      = accumulated c (runsBefore sampleLine3 2)
    ∧ startX_of (<[3%positive := KateLineLayout.setShiftX sampleLine3 9]> sampleHeap)
        (new (<[3%positive := KateLineLayout.setShiftX sampleLine3 9]> sampleHeap)
             (Some 3%positive) 2)
      = startX_of sampleHeap (new sampleHeap (Some 3%positive) 2)
    ∧ (inject_Z (startX_of sampleHeap (new sampleHeap (Some 3%positive) 2))
       == widthBefore sampleLine3 2 + inject_Z c)%Q.
Proof.
  destruct C1_startX_accumulates_widths_without_shift as [c Hc].
  exists c.
  assert (H1 : sampleHeap !! 3%positive = Some sampleLine3) by reflexivity.
  assert (H2 : KateLineLayout.isValid sampleLine3 = true) by reflexivity.
  assert (H3 : 0 < 2 < KateLineLayout.viewLineCount sampleLine3)
    by (split; reflexivity).
  assert (H4 : Forall wholeWidth (runsBefore sampleLine3 2)).
  { repeat constructor; eexists; reflexivity. }
  destruct (Hc sampleHeap 3%positive sampleLine3 2 9 H1 H2 H3) as (Ha & Hb & Hd).
  exact (conj H1 (conj H2 (conj H3 (conj H4 (conj Ha (conj Hb (Hd H4))))))).
Defined.

Lemma deref_setShiftX h p l s r :
  m_lineLayout r = Some p →
  deref (<[p := KateLineLayout.setShiftX l s]> h) r = KateLineLayout.setShiftX l s.
Proof. intros Hp. unfold deref, owner. by rewrite Hp, lookup_insert_eq. Qed.

(** The loop reads the runs only, so the owner's shift does not enter it. *)
Lemma startX_loop_setShiftX l s i acc :
  startX_loop (KateLineLayout.setShiftX l s) i acc = startX_loop l i acc.
Proof. reflexivity. Qed.

(** Once [startX()] has run, a further call answers the cached field,
    whatever has become of the owner's shift in between. *)
Lemma startX_again h h' r :
  isValid h r = true → isValid h' (snd (startX (mkWorld h r))).(w_this) = true →
  (m_startX r = -1 → deref h' r = deref h r
                     ∨ ∃ s, deref h' r = KateLineLayout.setShiftX (deref h r) s) →
  startX_of h' (w_this (snd (startX (mkWorld h r)))) = startX_of h r.
Proof.
  intros Hv Hv' Hd. unfold startX_of at 1. rewrite (startX_valid _ _ Hv').
  revert Hv'. unfold startX_of. rewrite (startX_valid _ _ Hv).
  destruct (m_startX r =? -1) eqn:E; simpl.
  - intros _. apply Z.eqb_eq in E. specialize (Hd E).
    set (x := startX_loop (deref h r) (m_viewLine r) (m_startX r)).
    destruct (x =? -1) eqn:Ex; [|done]. simpl.
    apply Z.eqb_eq in Ex.
    replace (deref h' (set_startX r x)) with (deref h' r) by done.
    rewrite Ex at 1. rewrite <- E.
    destruct Hd as [->|[s ->]]; [done|]. by rewrite startX_loop_setShiftX.
  - intros _. by rewrite E.
Qed.

(** When the runs before the view line are 0 wide in total, the cache still
    holds the sentinel after a call, and the next call runs the loop again,
    to the same value. *)
Example startX_zero_sum_keeps_sentinel :
  startX_of sampleHeap (new sampleHeap (Some 4%positive) 1) = -1
  ∧ m_startX (w_this (snd (startX (mkWorld sampleHeap
                                     (new sampleHeap (Some 4%positive) 1)))))
    = -1.
Proof. vm_compute. done. Qed.

(** C8. On a valid object two successive calls of [startX()] answer the same
    value, and the second call answers that value also when the owner's
    [shiftX()] has been set to any other value between the two calls. *)
Theorem C8_startX_stable_across_calls_and_shift
    (h : heap) (r : t) (p : addr) (l : KateLineLayout.t) (s : Z) :
  isValid h r = true → m_lineLayout r = Some p → h !! p = Some l →
  fst (startX (snd (startX (mkWorld h r)))) = fst (startX (mkWorld h r))
  ∧ fst (startX (mkWorld (<[p := KateLineLayout.setShiftX l s]> h)
                         (w_this (snd (startX (mkWorld h r))))))
    = fst (startX (mkWorld h r)).
Proof.
  intros Hv Hp Hl.
  assert (Hf : m_lineLayout (w_this (snd (startX (mkWorld h r)))) = m_lineLayout r
               ∧ m_viewLine (w_this (snd (startX (mkWorld h r)))) = m_viewLine r
               ∧ w_heap (snd (startX (mkWorld h r))) = h).
  { rewrite (startX_valid _ _ Hv). by destruct (m_startX r =? -1). }
  destruct Hf as (Hf1 & Hf2 & Hf3).
  split.
  - destruct (startX (mkWorld h r)) as [x [h1 r1]] eqn:Es. simpl in *. subst h1.
    change r1 with (w_this (snd (x, mkWorld h r1))).
    change x with (fst (x, mkWorld h r1)) at 2. rewrite <- Es.
    apply (startX_again h h r Hv); [|auto].
    rewrite Es. simpl. by rewrite (isValid_fields h r1 r).
  - apply (startX_again h _ r Hv).
    + rewrite (isValid_setShiftX h p l s _ Hl).
      by rewrite (isValid_fields h _ r).
    + intros _. right. exists s.
      rewrite (deref_setShiftX _ _ _ _ _ Hp).
      by destruct (isValid_owner _ _ _ _ Hv Hp Hl) as (-> & _).
Qed.

Lemma C8_witness :
  isValid sampleHeap (new sampleHeap (Some 1%positive) 1) = true
  ∧ m_lineLayout (new sampleHeap (Some 1%positive) 1) = Some 1%positive
  ∧ sampleHeap !! 1%positive = Some sampleLine
  ∧ fst (startX (snd (startX (mkWorld sampleHeap
                                      (new sampleHeap (Some 1%positive) 1)))))
    = fst (startX (mkWorld sampleHeap (new sampleHeap (Some 1%positive) 1)))
  ∧ fst (startX (mkWorld (<[1%positive := KateLineLayout.setShiftX sampleLine 40]>
                            sampleHeap)
                         (w_this (snd (startX (mkWorld sampleHeap
                                       (new sampleHeap (Some 1%positive) 1)))))))
    = fst (startX (mkWorld sampleHeap (new sampleHeap (Some 1%positive) 1))).
Proof.
  assert (H1 : isValid sampleHeap (new sampleHeap (Some 1%positive) 1) = true)
    by reflexivity.
  assert (H2 : m_lineLayout (new sampleHeap (Some 1%positive) 1) = Some 1%positive)
    by reflexivity.
  assert (H3 : sampleHeap !! 1%positive = Some sampleLine) by reflexivity.
  exact (conj H1 (conj H2 (conj H3
    (C8_startX_stable_across_calls_and_shift
       sampleHeap (new sampleHeap (Some 1%positive) 1) 1%positive sampleLine 40
       H1 H2 H3)))).
Defined.

(** Once [startX()] has been called, [endX()] reads the value it answered:
    it is that value plus the natural width of the run, as [int]. *)
Lemma endX_after_startX h r :
  isValid h r = true →
  endX h (w_this (snd (startX (mkWorld h r))))
  = addAssign (startX_of h r) (naturalTextWidth (lineLayout r)).
Proof.
  intros Hv. unfold endX, addAssign, startX_of, lineLayout.
  rewrite (isValid_fields h _ r), (startX_valid _ _ Hv), Hv;
    [|rewrite (startX_valid _ _ Hv); by destruct (m_startX r =? -1)..].
  simpl. by destruct (m_startX r =? -1).
Qed.

(** C4, evaluated on the second run of the sample line (runs of widths 10
    and 20) right after construction: [startX()] answers 9 and [width()] 20,
    but [endX()], called before any [startX()], reads the cache while it
    still holds the sentinel and answers -1 + 20; called after [startX()] it
    answers 29. *)
Theorem C4_endX_before_startX_reads_sentinel :
  isValid sampleHeap (new sampleHeap (Some 1%positive) 1) = true
  ∧ endX sampleHeap (new sampleHeap (Some 1%positive) 1) = 19
  ∧ startX_of sampleHeap (new sampleHeap (Some 1%positive) 1) = 9
  ∧ width sampleHeap (new sampleHeap (Some 1%positive) 1) = 20
  ∧ endX sampleHeap (new sampleHeap (Some 1%positive) 1)
    ≠ startX_of sampleHeap (new sampleHeap (Some 1%positive) 1)
      + width sampleHeap (new sampleHeap (Some 1%positive) 1)
  ∧ endX sampleHeap
         (w_this (snd (startX (mkWorld sampleHeap
                                       (new sampleHeap (Some 1%positive) 1)))))
    = 29.
Proof. vm_compute. repeat split; discriminate. Qed.

(** ** What a call leaves alone *)

Lemma startX_frame w :
  w_heap (snd (startX w)) = w_heap w
  ∧ sameButCache (w_this w) (w_this (snd (startX w)))
  ∧ (m_startX (w_this w) ≠ -1 → w_this (snd (startX w)) = w_this w).
Proof.
  destruct w as [h r]. simpl. destruct (isValid h r) eqn:Hv.
  - rewrite (startX_valid _ _ Hv).
    destruct (m_startX r =? -1) eqn:E; simpl; [|done].
    apply Z.eqb_eq in E. repeat split; congruence.
  - by rewrite (startX_invalid _ _ Hv).
Qed.

Lemma xOffset_world w : snd (xOffset w) = snd (startX w).
Proof.
  destruct w as [h r]. destruct (isValid h r) eqn:Hv.
  - unfold xOffset, bind, read, ret. simpl. rewrite Hv. simpl.
    destruct (startX (mkWorld h r)) as [x w']. simpl.
    by destruct (x =? 0).
  - by rewrite (xOffset_invalid _ _ Hv), (startX_invalid _ _ Hv).
Qed.

(** [xOffset()] in terms of [startX()] and the owner. *)
Lemma xOffset_of_valid h r p l :
  isValid h r = true → m_lineLayout r = Some p → h !! p = Some l →
  xOffset_of h r = if startX_of h r =? 0 then 0 else KateLineLayout.shiftX l.
Proof.
  intros Hv Hp Hl. unfold xOffset_of, startX_of, xOffset, bind, read, ret.
  simpl. rewrite Hv. simpl.
  pose proof (startX_frame (mkWorld h r)) as (Hh & (Hp' & _) & _).
  destruct (startX (mkWorld h r)) as [x [h' r']]. simpl in *. subst h'.
  destruct (x =? 0); simpl; [done|].
  unfold deref, owner. by rewrite Hp', Hp, Hl.
Qed.

(** What [setDirty] does on a valid object. *)
Lemma setDirty_valid h r p l d :
  isValid h r = true → m_lineLayout r = Some p → h !! p = Some l →
  setDirty d (mkWorld h r) =
    (KateLineLayout.isDirty l (m_viewLine r),
     mkWorld (<[p := KateLineLayout.set_dirtyList l
                       (<[Z.to_nat (m_viewLine r) := d]>
                          (KateLineLayout.m_dirtyList l))]> h) r).
Proof.
  intros Hv Hp Hl.
  destruct (isValid_owner _ _ _ _ Hv Hp Hl) as (Hd & Hlv & Hr).
  unfold setDirty, bind, read, ret, call_owner. simpl.
  rewrite Hv. simpl. rewrite Hp, Hd, (viewLine_valid _ _ Hv).
  unfold KateLineLayout.setDirty. rewrite Hlv. simpl.
  rewrite bool_decide_eq_true_2 by lia. done.
Qed.

Lemma setDirty_invalid h r d :
  isValid h r = false → setDirty d (mkWorld h r) = (true, mkWorld h r).
Proof.
  intros Hv. unfold setDirty, bind, read, ret. simpl. by rewrite Hv.
Qed.

(** The world after a call, member by member. *)
Lemma call_world q w :
  snd (call q w) =
    match q with
    | QstartX | QxOffset => snd (startX w)
    | QsetDirty d => snd (setDirty d w)
    | _ => w
    end.
Proof.
  destruct q; try reflexivity; unfold call, bind, ret.
  - by destruct (setDirty dirty w).
  - rewrite <- xOffset_world. by destruct (xOffset w).
  - by destruct (startX w).
Qed.

(** A call changes nothing of the object but, possibly, the cache; and the
    cache only while it holds the sentinel. *)
Lemma call_this q w :
  sameButCache (w_this w) (w_this (snd (call q w)))
  ∧ (m_startX (w_this w) ≠ -1 → w_this (snd (call q w)) = w_this w)
  ∧ (q ≠ QstartX → q ≠ QxOffset → w_this (snd (call q w)) = w_this w).
Proof.
  rewrite call_world.
  pose proof (startX_frame w) as (_ & Hs & Hc).
  assert (Hd : ∀ d, w_this (snd (setDirty d w)) = w_this w).
  { intros d. destruct w as [h r]. destruct (isValid h r) eqn:Hv.
    - apply isValid_spec in Hv as Hv'. destruct Hv' as (p & l & Hp & Hl & _).
      by rewrite (setDirty_valid _ _ _ _ _ Hv Hp Hl).
    - by rewrite (setDirty_invalid _ _ _ Hv). }
  destruct q; rewrite ?Hd; (split; [|split]);
    solve [ done | by unfold sameButCache | intros; congruence ].
Qed.

(** A zero cache stays zero through every call and every change of the
    store. *)
Lemma later_zero_cache w w' :
  later w w' → m_startX (w_this w) = 0 → m_startX (w_this w') = 0.
Proof.
  intros Hl H0. induction Hl as [|w1 w2 w3 Hstep _ IH]; [done|].
  apply IH. destruct Hstep as [q w1|w1 h']; [|done].
  destruct (call_this q w1) as (_ & Hc & _). rewrite Hc; [done|lia].
Qed.

(** C7. On a valid object [xOffset()] answers the owner's [shiftX()] when
    [startX()] is not zero and 0 when [startX()] is zero.  An object
    constructed for the first run of a line (view line 0) answers 0 to
    [startX()] and to [xOffset()], at construction and after any calls on it
    and any changes of the store. *)
Theorem C7_xOffset_is_shift_unless_startX_zero (h : heap) :
  (∀ r p l, isValid h r = true → m_lineLayout r = Some p → h !! p = Some l →
            xOffset_of h r
            = if startX_of h r =? 0 then 0 else KateLineLayout.shiftX l)
  ∧ (∀ o w, later (mkWorld h (new h o 0)) w →
            startX_of (w_heap w) (w_this w) = 0
            ∧ xOffset_of (w_heap w) (w_this w) = 0).
Proof.
  split; [apply xOffset_of_valid|].
  intros o w Hl.
  pose proof (later_zero_cache _ _ Hl) as H0.
  simpl in H0. rewrite new_startX in H0. specialize (H0 eq_refl).
  destruct w as [h' r']. simpl in *.
  assert (Hs : startX_of h' r' = 0).
  { unfold startX_of. destruct (isValid h' r') eqn:Hv.
    - rewrite (startX_valid _ _ Hv), H0. done.
    - by rewrite (startX_invalid _ _ Hv). }
  split; [done|].
  destruct (isValid h' r') eqn:Hv.
  - apply isValid_spec in Hv as Hv'. destruct Hv' as (p & l & Hp & Hl' & _).
    by rewrite (xOffset_of_valid _ _ _ _ Hv Hp Hl'), Hs.
  - unfold xOffset_of. by rewrite (xOffset_invalid _ _ Hv).
Qed.

Lemma C7_witness :
  (isValid sampleHeap (new sampleHeap (Some 1%positive) 1) = true
   ∧ m_lineLayout (new sampleHeap (Some 1%positive) 1) = Some 1%positive
   ∧ sampleHeap !! 1%positive = Some sampleLine
   ∧ xOffset_of sampleHeap (new sampleHeap (Some 1%positive) 1)
     = if startX_of sampleHeap (new sampleHeap (Some 1%positive) 1) =? 0
       then 0 else KateLineLayout.shiftX sampleLine)
  ∧ (later (mkWorld sampleHeap (new sampleHeap (Some 1%positive) 0))
           (snd (call QstartX
                      (mkWorld sampleHeap (new sampleHeap (Some 1%positive) 0))))
     ∧ xOffset_of
         (w_heap (snd (call QstartX
            (mkWorld sampleHeap (new sampleHeap (Some 1%positive) 0)))))
         (w_this (snd (call QstartX
            (mkWorld sampleHeap (new sampleHeap (Some 1%positive) 0)))))
       = 0).
Proof.
  assert (H1 : isValid sampleHeap (new sampleHeap (Some 1%positive) 1) = true)
    by reflexivity.
  assert (H2 : m_lineLayout (new sampleHeap (Some 1%positive) 1) = Some 1%positive)
    by reflexivity.
  assert (H3 : sampleHeap !! 1%positive = Some sampleLine) by reflexivity.
  assert (H4 : later (mkWorld sampleHeap (new sampleHeap (Some 1%positive) 0))
                 (snd (call QstartX
                    (mkWorld sampleHeap (new sampleHeap (Some 1%positive) 0)))))
    by (apply rtc_once, step_call).
  exact (conj
    (conj H1 (conj H2 (conj H3
      (proj1 (C7_xOffset_is_shift_unless_startX_zero sampleHeap)
             (new sampleHeap (Some 1%positive) 1) 1%positive sampleLine
             H1 H2 H3))))
    (conj H4
      (proj2 (proj2 (C7_xOffset_is_shift_unless_startX_zero sampleHeap)
                    (Some 1%positive) _ H4)))).
Defined.

Lemma onlyDirtyFlagDiffers_refl i l : onlyDirtyFlagDiffers i l l.
Proof. by unfold onlyDirtyFlagDiffers. Qed.

(** All calls but [setDirty] leave the store as it was. *)
Lemma call_heap q w :
  (∀ d, q ≠ QsetDirty d) → w_heap (snd (call q w)) = w_heap w.
Proof.
  intros Hq. rewrite call_world.
  pose proof (startX_frame w) as (Hh & _).
  destruct q; try done. by destruct (Hq dirty).
Qed.

(** [setDirty] writes at most the owner, and there at most the dirty flag
    of the view line of the object. *)
Lemma setDirty_heap d w p :
  (m_lineLayout (w_this w) ≠ Some p →
   w_heap (snd (setDirty d w)) !! p = w_heap w !! p)
  ∧ (w_heap w !! p = None → w_heap (snd (setDirty d w)) !! p = None)
  ∧ (∀ l, w_heap w !! p = Some l →
          ∃ l', w_heap (snd (setDirty d w)) !! p = Some l'
                ∧ onlyDirtyFlagDiffers (viewLine (w_heap w) (w_this w)) l l').
Proof.
  destruct w as [h r]. simpl. destruct (isValid h r) eqn:Hv.
  - apply isValid_spec in Hv as Hv'.
    destruct Hv' as (po & lo & Hp & Hl & _ & Hr).
    rewrite (setDirty_valid _ _ _ _ _ Hv Hp Hl), (viewLine_valid _ _ Hv). simpl.
    destruct (decide (po = p)) as [->|Hne].
    + rewrite lookup_insert_eq. split; [congruence|]. split; [congruence|].
      intros l Hl'. simplify_eq. eexists; split; [done|].
      unfold onlyDirtyFlagDiffers. simpl. rewrite length_insert.
      repeat split. intros j Hj. apply list_lookup_insert_ne. lia.
    + rewrite lookup_insert_ne by done. repeat split; [done|].
      intros l Hl'. exists l. split; [done|apply onlyDirtyFlagDiffers_refl].
  - rewrite (setDirty_invalid _ _ _ Hv). simpl. repeat split; [done|].
    intros l Hl'. exists l. split; [done|apply onlyDirtyFlagDiffers_refl].
Qed.

(** C9. No call on the object writes the owning line layout except
    [setDirty], and of the object itself only the cache is ever written, by
    [startX()] (and [xOffset()], which calls it): every other call leaves
    the object as it was, and every call but [setDirty] leaves the whole
    store as it was.  [setDirty] leaves every other line layout as it was,
    creates none, and changes of the owner at most the dirty flag of the
    view line of the object. *)
Theorem C9_only_setDirty_writes_owner (q : Query) (w : World) :
  sameButCache (w_this w) (w_this (snd (call q w)))
  ∧ (q ≠ QstartX → q ≠ QxOffset → w_this (snd (call q w)) = w_this w)
  ∧ ((∀ d, q ≠ QsetDirty d) → w_heap (snd (call q w)) = w_heap w)
  ∧ (∀ p, m_lineLayout (w_this w) ≠ Some p →
          w_heap (snd (call q w)) !! p = w_heap w !! p)
  ∧ (∀ p, w_heap w !! p = None → w_heap (snd (call q w)) !! p = None)
  ∧ (∀ p l, w_heap w !! p = Some l →
            ∃ l', w_heap (snd (call q w)) !! p = Some l'
                  ∧ onlyDirtyFlagDiffers (viewLine (w_heap w) (w_this w)) l l').
Proof.
  destruct (call_this q w) as (Hs & _ & Hother).
  split; [done|]. split; [done|]. split; [apply call_heap|].
  assert (Hcases : (∃ d, q = QsetDirty d) ∨ (∀ d, q ≠ QsetDirty d)).
  { destruct q; try (right; intros; discriminate). left. by eexists. }
  destruct Hcases as [[d ->]|Hq].
  - rewrite call_world.
    split; [|split]; intros p; [apply setDirty_heap..].
  - rewrite (call_heap _ _ Hq).
    split; [done|]. split; [done|].
    intros p l Hl. exists l. split; [done|apply onlyDirtyFlagDiffers_refl].
Qed.

Lemma C9_witness :
  (∀ d, QstartX ≠ QsetDirty d)
  ∧ w_heap (snd (call QstartX
                      (mkWorld sampleHeap (new sampleHeap (Some 1%positive) 1))))
    = sampleHeap.
Proof.
  assert (H1 : ∀ d, QstartX ≠ QsetDirty d) by (intros d; discriminate).
  exact (conj H1
    (proj1 (proj2 (proj2 (C9_only_setDirty_writes_owner QstartX
       (mkWorld sampleHeap (new sampleHeap (Some 1%positive) 1))))) H1)).
Defined.

(** ** Cursors: inclusion and comparison *)

(** C2, as the spec states it, fails on the last run of the sample line,
    columns [5,10) of line 3: the run does not wrap, column 12 lies strictly
    beyond [endCol()], and the cursor (3, 12) is included. *)
Lemma C2_counterexample :
  isValid sampleHeap (new sampleHeap (Some 1%positive) 1) = true
  ∧ wrap sampleHeap (new sampleHeap (Some 1%positive) 1) = false
  ∧ line sampleHeap (new sampleHeap (Some 1%positive) 1) = 3
  ∧ startCol sampleHeap (new sampleHeap (Some 1%positive) 1) = 5
  ∧ endCol sampleHeap (new sampleHeap (Some 1%positive) 1) = 10
  ∧ endCol sampleHeap (new sampleHeap (Some 1%positive) 1)
    < c_column (mkCursor 3 12)
  ∧ includesCursor sampleHeap (new sampleHeap (Some 1%positive) 1)
                   (mkCursor 3 12) = true.
Proof. vm_compute. repeat split. Qed.

(** C2 (amended). [includesCursor(c)] is true exactly when the cursor is on
    the line of the run, its column is at least [startCol()] and, if the run
    wraps, its column is below [endCol()]; the last run of a line has no
    upper bound on the column. *)
Theorem C2_includesCursor_iff (h : heap) (r : t) (c : Cursor) :
  includesCursor h r c = true ↔
  c_line c = line h r ∧ startCol h r ≤ c_column c
  ∧ (wrap h r = true → c_column c < endCol h r).
Proof.
  unfold includesCursor.
  rewrite !andb_true_iff, orb_true_iff, negb_true_iff, Z.eqb_eq, Z.geb_le,
    Z.ltb_lt.
  destruct (wrap h r); intuition congruence.
Qed.

Lemma C2_witness :
  includesCursor sampleHeap (new sampleHeap (Some 1%positive) 1) (mkCursor 3 10)
  = true
  ∧ includesCursor sampleHeap (new sampleHeap (Some 1%positive) 0) (mkCursor 3 5)
    = false.
Proof.
  split.
  - apply (proj2 (C2_includesCursor_iff sampleHeap
                    (new sampleHeap (Some 1%positive) 1) (mkCursor 3 10))).
    vm_compute. repeat split; discriminate.
  - destruct (includesCursor sampleHeap (new sampleHeap (Some 1%positive) 0)
                             (mkCursor 3 5)) eqn:E; [|reflexivity].
    apply (proj1 (C2_includesCursor_iff sampleHeap
                    (new sampleHeap (Some 1%positive) 0) (mkCursor 3 5)))
      in E as (_ & _ & Hw).
    specialize (Hw eq_refl). vm_compute in Hw. discriminate.
Defined.

(** What the four operators compute. *)
Lemma op_lt_spec h r c :
  op_lt h r c = true ↔ line h r < c_line c ∨ startCol h r < c_column c.
Proof. unfold op_lt. by rewrite orb_true_iff, !Z.ltb_lt. Qed.

Lemma op_le_spec h r c :
  op_le h r c = true ↔ line h r < c_line c ∨ startCol h r ≤ c_column c.
Proof. unfold op_le. by rewrite orb_true_iff, Z.ltb_lt, Z.leb_le. Qed.

Lemma op_gt_spec h r c :
  op_gt h r c = true ↔ c_line c < line h r ∨ c_column c < endCol h r.
Proof. unfold op_gt. by rewrite orb_true_iff, !Z.gtb_lt. Qed.

Lemma op_ge_spec h r c :
  op_ge h r c = true ↔ c_line c < line h r ∨ c_column c ≤ endCol h r.
Proof. unfold op_ge. by rewrite orb_true_iff, Z.gtb_lt, Z.geb_le. Qed.

(** The spec's own example: run A on line 3, columns [0,5), against the
    cursor (3, 7). *)
Example op_same_line :
  op_lt sampleHeap (new sampleHeap (Some 1%positive) 0) (mkCursor 3 7) = true
  ∧ op_gt sampleHeap (new sampleHeap (Some 1%positive) 0) (mkCursor 3 7) = false.
Proof. vm_compute. done. Qed.

(** C3, evaluated where the lines differ.  The run on line 5, columns
    [0,5), is after the cursor (3, 7) in the lexicographic order, yet
    [r < c] and [r <= c] answer true, from the columns alone; the run on
    line 3, columns [0,5), is before the cursor (5, 2), yet [r > c] and
    [r >= c] answer true. *)
Theorem C3_operators_decided_by_columns_across_lines :
  line sampleHeap (new sampleHeap (Some 2%positive) 0) = 5
  ∧ startCol sampleHeap (new sampleHeap (Some 2%positive) 0) = 0
  ∧ op_lt sampleHeap (new sampleHeap (Some 2%positive) 0) (mkCursor 3 7) = true
  ∧ op_le sampleHeap (new sampleHeap (Some 2%positive) 0) (mkCursor 3 7) = true
  ∧ line sampleHeap (new sampleHeap (Some 1%positive) 0) = 3
  ∧ endCol sampleHeap (new sampleHeap (Some 1%positive) 0) = 5
  ∧ op_gt sampleHeap (new sampleHeap (Some 1%positive) 0) (mkCursor 5 2) = true
  ∧ op_ge sampleHeap (new sampleHeap (Some 1%positive) 0) (mkCursor 5 2) = true.
Proof. vm_compute. repeat split. Qed.

(** * Further properties of the view line object *)

(** A valid run wraps exactly when the object for the next view line of the
    same owner is valid, and does not wrap exactly when it is the owner's
    last view line: walking [viewLine() + 1] while [wrap()] visits every
    view line and stops on the last. *)
Theorem wrap_iff_next_view_line_valid
    (h : heap) (r : t) (p : addr) (l : KateLineLayout.t) :
  isValid h r = true → m_lineLayout r = Some p → h !! p = Some l →
  (wrap h r = true ↔ isValid h (new h (Some p) (viewLine h r + 1)) = true)
  ∧ (wrap h r = false ↔ viewLine h r = KateLineLayout.viewLineCount l - 1).
Proof.
  intros Hv Hp Hl.
  destruct (isValid_owner _ _ _ _ Hv Hp Hl) as (Hd & Hlv & Hr).
  assert (Hw : wrap h r = (m_viewLine r <? KateLineLayout.viewLineCount l - 1)).
  { unfold wrap. by rewrite Hv, (viewLine_valid _ _ Hv), Hd. }
  rewrite Hw, (viewLine_valid _ _ Hv). split.
  - rewrite Z.ltb_lt, isValid_spec. split.
    + intros Hlt. exists p, l. rewrite new_lineLayout, new_viewLine.
      repeat split; try done; lia.
    + intros (p' & l' & Hp' & Hl' & _ & Hi).
      rewrite new_lineLayout in Hp'. rewrite new_viewLine in Hi.
      simplify_eq. lia.
  - rewrite Z.ltb_ge. lia.
Qed.

Lemma wrap_iff_next_view_line_valid_witness :
  isValid sampleHeap (new sampleHeap (Some 3%positive) 1) = true
  ∧ m_lineLayout (new sampleHeap (Some 3%positive) 1) = Some 3%positive
  ∧ sampleHeap !! 3%positive = Some sampleLine3
  ∧ (wrap sampleHeap (new sampleHeap (Some 3%positive) 1) = true
     ↔ isValid sampleHeap
         (new sampleHeap (Some 3%positive)
              (viewLine sampleHeap (new sampleHeap (Some 3%positive) 1) + 1))
       = true)
  ∧ (wrap sampleHeap (new sampleHeap (Some 3%positive) 1) = false
     ↔ viewLine sampleHeap (new sampleHeap (Some 3%positive) 1)
       = KateLineLayout.viewLineCount sampleLine3 - 1).
Proof.
  assert (H1 : isValid sampleHeap (new sampleHeap (Some 3%positive) 1) = true)
    by reflexivity.
  assert (H2 : m_lineLayout (new sampleHeap (Some 3%positive) 1) = Some 3%positive)
    by reflexivity.
  assert (H3 : sampleHeap !! 3%positive = Some sampleLine3) by reflexivity.
  exact (conj H1 (conj H2 (conj H3
    (wrap_iff_next_view_line_valid sampleHeap _ 3%positive sampleLine3
       H1 H2 H3)))).
Defined.

(** An object freshly constructed on view line [n] of a valid line layout
    is valid and answers with the data of the owner's [n]-th run: its text
    start, its text length, their sum as end column, its natural width cut
    to an [int], and the owner's line numbers. *)
Theorem fresh_object_reports_its_run
    (h : heap) (p : addr) (l : KateLineLayout.t) (n : nat) (q : QTextLine) :
  h !! p = Some l → KateLineLayout.isValid l = true →
  KateLineLayout.m_layout l !! n = Some q →
  isValid h (new h (Some p) (Z.of_nat n)) = true
  ∧ line h (new h (Some p) (Z.of_nat n)) = KateLineLayout.line l
  ∧ virtualLine h (new h (Some p) (Z.of_nat n)) = KateLineLayout.virtualLine l
  ∧ viewLine h (new h (Some p) (Z.of_nat n)) = Z.of_nat n
  ∧ startCol h (new h (Some p) (Z.of_nat n)) = textStart q
  ∧ length h (new h (Some p) (Z.of_nat n)) = textLength q
  ∧ endCol h (new h (Some p) (Z.of_nat n)) = textStart q + textLength q
  ∧ width h (new h (Some p) (Z.of_nat n)) = toInt (naturalTextWidth q).
Proof.
  intros Hl Hlv Hq.
  assert (Hn : 0 ≤ Z.of_nat n < KateLineLayout.viewLineCount l).
  { apply lookup_lt_Some in Hq. unfold KateLineLayout.viewLineCount. lia. }
  pose proof (isValid_new_in_range h p l _ Hl Hlv Hn) as Hv.
  destruct (isValid_owner h _ p l Hv (new_lineLayout _ _ _) Hl) as (Hd & _ & _).
  assert (Ht : m_textLayout (new h (Some p) (Z.of_nat n)) = q).
  { pose proof Hv as Hv'. rewrite isValid_new in Hv'.
    unfold new. cbv zeta. rewrite Hv'. simpl.
    unfold deref, owner. simpl. rewrite Hl. simpl.
    unfold KateLineLayout.lineAt.
    rewrite bool_decide_eq_true_2 by lia. by rewrite Nat2Z.id, Hq. }
  unfold line, virtualLine, viewLine, startCol, length, endCol, width, startCol,
    lineLayout.
  rewrite Hv, Hd, Ht, new_viewLine. simpl. done.
Qed.

Lemma fresh_object_reports_its_run_witness :
  sampleHeap !! 5%positive = Some sampleLineFrac
  ∧ KateLineLayout.isValid sampleLineFrac = true
  ∧ KateLineLayout.m_layout sampleLineFrac !! 1%nat
    = Some (mkQTextLine 1 5 (83 # 4))
  ∧ endCol sampleHeap (new sampleHeap (Some 5%positive) (Z.of_nat 1)) = 1 + 5
  ∧ width sampleHeap (new sampleHeap (Some 5%positive) (Z.of_nat 1))
    = toInt (83 # 4).
Proof.
  assert (H1 : sampleHeap !! 5%positive = Some sampleLineFrac) by reflexivity.
  assert (H2 : KateLineLayout.isValid sampleLineFrac = true) by reflexivity.
  assert (H3 : KateLineLayout.m_layout sampleLineFrac !! 1%nat
               = Some (mkQTextLine 1 5 (83 # 4))) by reflexivity.
  pose proof (fresh_object_reports_its_run sampleHeap 5%positive sampleLineFrac
                1%nat (mkQTextLine 1 5 (83 # 4)) H1 H2 H3)
    as (_ & _ & _ & _ & _ & _ & He & Hw).
  exact (conj H1 (conj H2 (conj H3 (conj He Hw)))).
Defined.

(** For a cursor on the line of the run, [includesCursor] is the
    conjunction of the comparisons: the run is at or before the cursor
    ([r <= c]) and, if it wraps, its end is after the cursor ([r > c]). *)
Theorem includesCursor_by_comparisons (h : heap) (r : t) (c : Cursor) :
  c_line c = line h r →
  includesCursor h r c = op_le h r c && (negb (wrap h r) || op_gt h r c).
Proof.
  intros Hc. unfold includesCursor, op_le, op_gt. rewrite Hc.
  rewrite Z.eqb_refl, Z.ltb_irrefl, Z.gtb_ltb, Z.ltb_irrefl. simpl.
  by rewrite Z.geb_leb, (Z.gtb_ltb (endCol h r)).
Qed.

Lemma includesCursor_by_comparisons_witness :
  c_line (mkCursor 3 7) = line sampleHeap (new sampleHeap (Some 1%positive) 1)
  ∧ includesCursor sampleHeap (new sampleHeap (Some 1%positive) 1) (mkCursor 3 7)
    = op_le sampleHeap (new sampleHeap (Some 1%positive) 1) (mkCursor 3 7)
      && (negb (wrap sampleHeap (new sampleHeap (Some 1%positive) 1))
          || op_gt sampleHeap (new sampleHeap (Some 1%positive) 1)
                   (mkCursor 3 7)).
Proof.
  assert (H1 : c_line (mkCursor 3 7)
               = line sampleHeap (new sampleHeap (Some 1%positive) 1))
    by reflexivity.
  exact (conj H1 (includesCursor_by_comparisons sampleHeap _ (mkCursor 3 7) H1)).
Defined.

(** After [startX()] or [xOffset()] has been called on a valid object,
    [endX()] reads the value [startX()] answered: it is that value plus the
    natural width of the run, cut to an [int].  When that value and the
    width are not negative, this is [startX()] plus [width()]. *)
Theorem endX_after_startX_or_xOffset (h : heap) (r : t) :
  isValid h r = true →
  endX h (w_this (snd (startX (mkWorld h r))))
  = addAssign (startX_of h r) (naturalTextWidth (lineLayout r))
  ∧ endX h (w_this (snd (xOffset (mkWorld h r))))
    = addAssign (startX_of h r) (naturalTextWidth (lineLayout r))
  ∧ (0 ≤ startX_of h r → (0 <= naturalTextWidth (lineLayout r))%Q →
     endX h (w_this (snd (startX (mkWorld h r)))) = startX_of h r + width h r
     ∧ endX h (w_this (snd (xOffset (mkWorld h r))))
       = startX_of h r + width h r).
Proof.
  intros Hv. rewrite xOffset_world, (endX_after_startX _ _ Hv).
  split; [done|]. split; [done|].
  intros Hx Hw. rewrite (addAssign_nonneg _ _ Hx Hw).
  unfold width, lineLayout. by rewrite Hv.
Qed.

Lemma endX_after_startX_or_xOffset_witness :
  isValid sampleHeap (new sampleHeap (Some 5%positive) 2) = true
  ∧ 0 ≤ startX_of sampleHeap (new sampleHeap (Some 5%positive) 2)
  ∧ (0 <= naturalTextWidth (lineLayout (new sampleHeap (Some 5%positive) 2)))%Q
  ∧ endX sampleHeap
         (w_this (snd (xOffset (mkWorld sampleHeap
                                        (new sampleHeap (Some 5%positive) 2)))))
    = startX_of sampleHeap (new sampleHeap (Some 5%positive) 2)
      + width sampleHeap (new sampleHeap (Some 5%positive) 2).
Proof.
  assert (H1 : isValid sampleHeap (new sampleHeap (Some 5%positive) 2) = true)
    by reflexivity.
  assert (H2 : 0 ≤ startX_of sampleHeap (new sampleHeap (Some 5%positive) 2))
    by (vm_compute; discriminate).
  assert (H3 : (0 <= naturalTextWidth
                       (lineLayout (new sampleHeap (Some 5%positive) 2)))%Q)
    by (vm_compute; discriminate).
  exact (conj H1 (conj H2 (conj H3
    (proj2 (proj2 (proj2 (endX_after_startX_or_xOffset sampleHeap _ H1))
                  H2 H3))))).
Defined.

(** The first [startX()] on a freshly constructed valid object: 0 on view
    line 0; on view line [i > 0] the widths of the runs before are added
    one after the other, each sum cut to an [int], to a cache that starts
    at the sentinel -1, so on whole widths the answer is the cumulative
    natural width of the runs before, less one.  The answer is what the
    cache holds afterwards, and the store is as it was. *)
Theorem startX_first_call_on_fresh_object
    (h : heap) (p : addr) (l : KateLineLayout.t) (i : Z) :
  h !! p = Some l → KateLineLayout.isValid l = true →
  0 ≤ i < KateLineLayout.viewLineCount l →
  startX_of h (new h (Some p) i)
  = (if i =? 0 then 0 else accumulated (-1) (runsBefore l i))
  ∧ (0 < i → Forall wholeWidth (runsBefore l i) →
     (inject_Z (startX_of h (new h (Some p) i))
      == widthBefore l i - inject_Z 1)%Q)
  ∧ m_startX (w_this (snd (startX (mkWorld h (new h (Some p) i)))))
    = startX_of h (new h (Some p) i)
  ∧ w_heap (snd (startX (mkWorld h (new h (Some p) i)))) = h.
Proof.
  intros Hl Hlv Hi.
  pose proof (isValid_new_in_range h p l i Hl Hlv Hi) as Hv.
  split; [|split; [|split]].
  - destruct (i =? 0) eqn:E.
    + apply Z.eqb_eq in E. subst i.
      rewrite (startX_of_valid h _ p l Hv (new_lineLayout _ _ _) Hl).
      by rewrite new_startX.
    + apply Z.eqb_neq in E. by rewrite (startX_of_new h p l i) by (done || lia).
  - intros Hpos Hw. rewrite (startX_of_new h p l i) by (done || lia).
    rewrite (accumulated_whole _ _ Hw). unfold widthBefore.
    change (inject_Z (-1)) with (- inject_Z 1)%Q. ring.
  - unfold startX_of. rewrite (startX_valid _ _ Hv).
    by destruct (m_startX (new h (Some p) i) =? -1).
  - apply (startX_frame (mkWorld h (new h (Some p) i))).
Qed.

Lemma startX_first_call_on_fresh_object_witness :
  sampleHeap !! 5%positive = Some sampleLineFrac
  ∧ KateLineLayout.isValid sampleLineFrac = true
  ∧ 0 ≤ 2 < KateLineLayout.viewLineCount sampleLineFrac
  ∧ startX_of sampleHeap (new sampleHeap (Some 5%positive) 2)
    = (if 2 =? 0 then 0 else accumulated (-1) (runsBefore sampleLineFrac 2)).
Proof.
  assert (H1 : sampleHeap !! 5%positive = Some sampleLineFrac) by reflexivity.
  assert (H2 : KateLineLayout.isValid sampleLineFrac = true) by reflexivity.
  assert (H3 : 0 ≤ 2 < KateLineLayout.viewLineCount sampleLineFrac)
    by (vm_compute; split; [discriminate | reflexivity]).
  exact (conj H1 (conj H2 (conj H3
    (proj1 (startX_first_call_on_fresh_object sampleHeap 5%positive
              sampleLineFrac 2 H1 H2 H3))))).
Defined.

(** The first [startX()] on the runs of widths 1/2 and 20 3/4: the second
    run starts at 0, the third at 20. *)
Example startX_fractional_widths :
  startX_of sampleHeap (new sampleHeap (Some 5%positive) 1) = 0
  ∧ startX_of sampleHeap (new sampleHeap (Some 5%positive) 2) = 20
  ∧ width sampleHeap (new sampleHeap (Some 5%positive) 1) = 20.
Proof. vm_compute. done. Qed.

(** On an object that is not valid, [start()] and [end()] are the cursor
    (-1, 0), and [includesCursor] accepts exactly the cursors on line -1
    with a column of at least 0: the invalid cursor (-1, -1) is not
    included, the cursor (-1, 0) is. *)
Theorem invalid_object_includes_line_minus_one (h : heap) (r : t) (c : Cursor) :
  isValid h r = false →
  start h r = mkCursor (-1) 0 ∧ end_ h r = mkCursor (-1) 0
  ∧ (includesCursor h r c = true ↔ c_line c = -1 ∧ 0 ≤ c_column c).
Proof.
  intros Hv.
  unfold start, end_, includesCursor, line, startCol, endCol, wrap.
  rewrite Hv. simpl. split; [done|]. split; [done|].
  by rewrite andb_true_r, andb_true_iff, Z.eqb_eq, Z.geb_le.
Qed.

Lemma invalid_object_includes_line_minus_one_witness :
  isValid sampleHeap (new sampleHeap None 0) = false
  ∧ includesCursor sampleHeap (new sampleHeap None 0) (mkCursor (-1) 0) = true.
Proof.
  assert (H1 : isValid sampleHeap (new sampleHeap None 0) = false) by reflexivity.
  refine (conj H1 _).
  apply (proj2 (proj2 (proj2 (invalid_object_includes_line_minus_one
                                sampleHeap _ (mkCursor (-1) 0) H1)))).
  split; [reflexivity | discriminate].
Defined.

(** The column members agree on every object, valid or not: [endCol()] is
    [startCol()] plus [length()]; and [isEmpty()] holds exactly when the
    object is not valid or the run starts at column 0 with length 0, so a
    run of length 0 further right in the line is not empty. *)
Theorem columns_length_and_isEmpty_agree (h : heap) (r : t) :
  endCol h r = startCol h r + length h r
  ∧ (isEmpty h r = true ↔
     isValid h r = false ∨ (startCol h r = 0 ∧ length h r = 0)).
Proof.
  unfold isEmpty, endCol, length, startCol.
  destruct (isValid h r); simpl; [|split; [done|tauto]].
  split; [done|].
  rewrite andb_true_iff, !Z.eqb_eq. split.
  - intros [H1 H2]. right. lia.
  - intros [?|[H1 H2]]; [done|lia].
Qed.

(** The comparisons against a cursor are graded, [r < c] implies [r <= c]
    and [r > c] implies [r >= c], and for a run of non-negative length they
    leave no gap: every cursor has the run at or before it ([r <= c]) or
    the end of the run after it ([r > c]). *)
Theorem comparisons_graded_and_gapless (h : heap) (r : t) (c : Cursor) :
  0 ≤ length h r →
  (op_lt h r c = true → op_le h r c = true)
  ∧ (op_gt h r c = true → op_ge h r c = true)
  ∧ op_le h r c || op_gt h r c = true.
Proof.
  intros Hlen.
  pose proof (proj1 (columns_length_and_isEmpty_agree h r)) as He.
  rewrite op_lt_spec, op_le_spec, op_gt_spec, op_ge_spec, orb_true_iff,
    op_le_spec, op_gt_spec.
  lia.
Qed.

Lemma comparisons_graded_and_gapless_witness :
  0 ≤ length sampleHeap (new sampleHeap (Some 1%positive) 1)
  ∧ op_le sampleHeap (new sampleHeap (Some 1%positive) 1) (mkCursor 3 2)
    || op_gt sampleHeap (new sampleHeap (Some 1%positive) 1) (mkCursor 3 2)
    = true.
Proof.
  assert (H1 : 0 ≤ length sampleHeap (new sampleHeap (Some 1%positive) 1))
    by (vm_compute; discriminate).
  exact (conj H1 (proj2 (proj2 (comparisons_graded_and_gapless
                                  sampleHeap _ (mkCursor 3 2) H1)))).
Defined.

(** * The tooltip *)

(** Case analysis along the six adjustments of [Tooltip::place]. *)
Ltac place_cases Hscreen :=
  unfold Tooltip.place, Tooltip.beyondRight, Tooltip.beyondBottom;
  cbv zeta; cbn [p_x p_y]; rewrite <- Hscreen;
  repeat match goal with
         | |- context [if ?b then _ else _] =>
             lazymatch b with
             | context [if _ then _ else _] => fail
             | _ => destruct b eqn:?
             end; cbn [p_x p_y] in *
         end;
  repeat match goal with
         | H : (_ >? _) = _ |- _ => rewrite Z.gtb_ltb in H
         end;
  repeat match goal with
         | H : (_ <? _) = true |- _ => apply Z.ltb_lt in H
         | H : (_ <? _) = false |- _ => apply Z.ltb_ge in H
         end.

(** On Wayland, and elsewhere whenever the tooltip fits on the screen at
    the offset position, the tooltip is moved to the given point shifted by
    (3, 21) and nowhere else. *)
Theorem place_keeps_offset_when_it_fits
    (isPlatformWayland : bool) (screenAt : QPoint → option QRect)
    (ownScreen : QRect) (width height : Z) (p : QPoint) (screen : QRect) :
  screen = Tooltip.screenForTooltip screenAt ownScreen
             (mkQPoint (p_x p + 3) (p_y p + 21)) →
  isPlatformWayland = true
  ∨ (r_x screen ≤ p_x p + 3
     ∧ p_x p + 3 + width ≤ r_x screen + r_width screen
     ∧ r_y screen ≤ p_y p + 21
     ∧ p_y p + 21 + height ≤ r_y screen + r_height screen) →
  Tooltip.place isPlatformWayland screenAt ownScreen width height p
  = mkQPoint (p_x p + 3) (p_y p + 21).
Proof.
  intros Hs [->|Hfit]; [reflexivity|].
  destruct isPlatformWayland; [reflexivity|].
  place_cases Hs; solve [ reflexivity | exfalso; lia | f_equal; lia ].
Qed.

Lemma place_keeps_offset_when_it_fits_witness :
  sampleScreen = Tooltip.screenForTooltip sampleScreenAt sampleScreen
                   (mkQPoint (100 + 3) (200 + 21))
  ∧ Tooltip.place false sampleScreenAt sampleScreen 300 150 (mkQPoint 100 200)
    = mkQPoint (100 + 3) (200 + 21).
Proof.
  assert (H1 : sampleScreen = Tooltip.screenForTooltip sampleScreenAt sampleScreen
                                (mkQPoint (100 + 3) (200 + 21)))
    by reflexivity.
  refine (conj H1 _).
  apply (place_keeps_offset_when_it_fits false sampleScreenAt sampleScreen
           300 150 (mkQPoint 100 200) sampleScreen H1).
  right. vm_compute. repeat split; discriminate.
Defined.

(** Off Wayland the tooltip never starts left of the screen and never ends
    below it; when it is no wider than the screen it does not end right of
    it, and when it is no higher than the screen it does not start above
    it.  So a tooltip that fits the screen lies on it entirely, wherever
    the point was, and one that does not fit shows its left and its bottom
    edge. *)
Theorem place_stays_on_screen
    (screenAt : QPoint → option QRect) (ownScreen : QRect)
    (width height : Z) (p : QPoint) (screen : QRect) :
  screen = Tooltip.screenForTooltip screenAt ownScreen
             (mkQPoint (p_x p + 3) (p_y p + 21)) →
  r_x screen ≤ p_x (Tooltip.place false screenAt ownScreen width height p)
  ∧ p_y (Tooltip.place false screenAt ownScreen width height p) + height
    ≤ r_y screen + r_height screen
  ∧ (width ≤ r_width screen →
     p_x (Tooltip.place false screenAt ownScreen width height p) + width
     ≤ r_x screen + r_width screen)
  ∧ (height ≤ r_height screen →
     r_y screen ≤ p_y (Tooltip.place false screenAt ownScreen width height p)).
Proof.
  intros Hs.
  split; [|split; [|split; intros Hfit]]; place_cases Hs; lia.
Qed.

Lemma place_stays_on_screen_witness :
  sampleScreen = Tooltip.screenForTooltip sampleScreenAt sampleScreen
                   (mkQPoint (5000 + 3) (-70 + 21))
  ∧ 300 ≤ r_width sampleScreen
  ∧ p_x (Tooltip.place false sampleScreenAt sampleScreen 300 150
                       (mkQPoint 5000 (-70))) + 300
    ≤ r_x sampleScreen + r_width sampleScreen.
Proof.
  assert (H1 : sampleScreen = Tooltip.screenForTooltip sampleScreenAt sampleScreen
                                (mkQPoint (5000 + 3) (-70 + 21)))
    by reflexivity.
  assert (H2 : 300 ≤ r_width sampleScreen) by (vm_compute; discriminate).
  exact (conj H1 (conj H2
    (proj1 (proj2 (proj2 (place_stays_on_screen sampleScreenAt sampleScreen
                            300 150 (mkQPoint 5000 (-70)) sampleScreen H1)))
           H2))).
Defined.

(** Off Wayland, a tooltip that would cross the right edge of the screen
    is put to the left of the point, ending one pixel before it, when the
    point is on the screen and there is room; one that would cross the
    bottom edge is put above the point, ending three pixels before it. *)
Theorem place_flips_to_the_other_side
    (screenAt : QPoint → option QRect) (ownScreen : QRect)
    (width height : Z) (p : QPoint) (screen : QRect) :
  screen = Tooltip.screenForTooltip screenAt ownScreen
             (mkQPoint (p_x p + 3) (p_y p + 21)) →
  (r_x screen + r_width screen < p_x p + 3 + width →
   r_x screen ≤ p_x p - 1 - width → p_x p - 1 ≤ r_x screen + r_width screen →
   p_x (Tooltip.place false screenAt ownScreen width height p) + width
   = p_x p - 1)
  ∧ (r_y screen + r_height screen < p_y p + 21 + height →
     r_y screen ≤ p_y p - 3 - height →
     p_y p - 3 ≤ r_y screen + r_height screen →
     p_y (Tooltip.place false screenAt ownScreen width height p) + height
     = p_y p - 3).
Proof.
  intros Hs. split; intros H1 H2 H3; place_cases Hs; lia.
Qed.

Lemma place_flips_to_the_other_side_witness :
  sampleScreen = Tooltip.screenForTooltip sampleScreenAt sampleScreen
                   (mkQPoint (1800 + 3) (1000 + 21))
  ∧ p_x (Tooltip.place false sampleScreenAt sampleScreen 300 150
                       (mkQPoint 1800 1000)) + 300 = 1800 - 1
  ∧ p_y (Tooltip.place false sampleScreenAt sampleScreen 300 150
                       (mkQPoint 1800 1000)) + 150 = 1000 - 3.
Proof.
  assert (H1 : sampleScreen = Tooltip.screenForTooltip sampleScreenAt sampleScreen
                                (mkQPoint (1800 + 3) (1000 + 21)))
    by reflexivity.
  refine (conj H1 _).
  destruct (place_flips_to_the_other_side sampleScreenAt sampleScreen 300 150
              (mkQPoint 1800 1000) sampleScreen H1) as [Hx Hy].
  split.
  - apply Hx; vm_compute; (reflexivity || discriminate).
  - apply Hy; vm_compute; (reflexivity || discriminate).
Defined.

(** A tooltip shown manually never starts its hide timer, whatever events
    reach it: the timer is started on mouse moves outside only, and not for
    a manual tooltip.  So the timer never fires on it, and the pointer
    leaving it hides it unless its context menu is open. *)
Theorem manual_tooltip_never_starts_timer (s : Tooltip.t) :
  rtc Tooltip.step (Tooltip.new true) s →
  Tooltip.m_manual s = true
  ∧ Tooltip.m_hideTimer_isActive s = false
  ∧ Tooltip.enabled s Tooltip.Etimeout = false
  ∧ (Tooltip.inContextMenu s = false →
     Tooltip.deleteLater_called (Tooltip.leaveEvent s) = true).
Proof.
  intros Hr.
  assert (Hinv : Tooltip.m_manual s = true ∧ Tooltip.m_hideTimer_isActive s = false).
  { revert s Hr. apply rtc_ind_r; [done|]. intros s1 s2 _ Hstep IH.
    destruct IH as [Hm Ht]. destruct Hstep as [s1 e He].
    destruct s1 as [cm ta m dl]. simpl in Hm, Ht. subst m ta.
    destruct e as [ty vf hf inside| | | | |]; simpl in *; try done;
      [destruct ty; simpl|unfold Tooltip.leaveEvent; simpl]; try done;
      repeat match goal with
             | |- context [if ?b then _ else _] => destruct b
             end; done. }
  destruct Hinv as [Hm Ht]. repeat split; try done.
  intros Hc. unfold Tooltip.leaveEvent. by rewrite Ht, Hc.
Qed.

Lemma manual_tooltip_never_starts_timer_witness :
  rtc Tooltip.step (Tooltip.new true)
      (Tooltip.handle (Tooltip.new true) (Tooltip.Efilter MouseMove false false false))
  ∧ Tooltip.m_hideTimer_isActive
      (Tooltip.handle (Tooltip.new true) (Tooltip.Efilter MouseMove false false false))
    = false.
Proof.
  assert (H1 : rtc Tooltip.step (Tooltip.new true)
                 (Tooltip.handle (Tooltip.new true)
                    (Tooltip.Efilter MouseMove false false false)))
    by (apply rtc_once, Tooltip.step_event; reflexivity).
  exact (conj H1
    (proj1 (proj2 (manual_tooltip_never_starts_timer _ H1)))).
Defined.

(** While the context menu of the tooltip is open, that is from
    [contextMenuEvent] on with the hide timer not running, no sequence of
    quiet events hides it: the flag stays set, the timer stays stopped, so
    that its timeout cannot come, and [deleteLater()] is not called.  The
    exceptions are exact: an event that is not quiet is the pointer
    entering, or hides the tooltip, or starts the hide timer.  After the
    pointer has entered, a leave hides the tooltip. *)
Theorem context_menu_keeps_tooltip (s s' : Tooltip.t) :
  Tooltip.m_hideTimer_isActive s = false →
  rtc Tooltip.quietStep (Tooltip.contextMenuEvent s) s' →
  Tooltip.inContextMenu s' = true
  ∧ Tooltip.m_hideTimer_isActive s' = false
  ∧ Tooltip.deleteLater_called s' = Tooltip.deleteLater_called s
  ∧ (∀ e, Tooltip.quiet s' e = false →
          e = Tooltip.Eenter
          ∨ Tooltip.deleteLater_called (Tooltip.handle s' e) = true
          ∨ Tooltip.m_hideTimer_isActive (Tooltip.handle s' e) = true)
  ∧ Tooltip.deleteLater_called (Tooltip.leaveEvent (Tooltip.enterEvent s'))
    = true.
Proof.
  intros Ht Hr.
  assert (Hinv : Tooltip.inContextMenu s' = true
                 ∧ Tooltip.m_hideTimer_isActive s' = false
                 ∧ Tooltip.deleteLater_called s' = Tooltip.deleteLater_called s).
  { revert s' Hr.
    apply (rtc_ind_r (λ s', Tooltip.inContextMenu s' = true
             ∧ Tooltip.m_hideTimer_isActive s' = false
             ∧ Tooltip.deleteLater_called s' = Tooltip.deleteLater_called s)).
    - done.
    - intros s1 s2 _ Hstep (Hc & Hta & Hd).
      destruct Hstep as [s1 e He Hq].
      destruct s1 as [cm ta m dl]. simpl in Hc, Hta, Hd. subst cm ta dl.
      destruct e as [ty vf hf inside| | | | |]; simpl in *; try done.
      destruct ty; simpl in *; try done; subst;
        repeat match goal with
               | |- context [if ?b then _ else _] => destruct b eqn:?
               end; simpl in *; try done;
        destruct m, hf; simpl in *; done. }
  destruct Hinv as (Hc & Hta & Hd).
  split; [done|]. split; [done|]. split; [done|]. split; [|reflexivity].
  intros e Hq. destruct s' as [cm ta m dl]. simpl in Hc, Hta. subst cm ta.
  destruct e as [ty vf hf inside| | | | |]; simpl in *; try done;
    [|by left].
  right. destruct ty; simpl in *; try done; subst; simpl; auto.
  apply orb_false_iff in Hq as [-> ->]. simpl. auto.
Qed.

Lemma context_menu_keeps_tooltip_witness :
  Tooltip.m_hideTimer_isActive (Tooltip.new false) = false
  ∧ rtc Tooltip.quietStep (Tooltip.contextMenuEvent (Tooltip.new false))
        (Tooltip.handle
           (Tooltip.handle (Tooltip.contextMenuEvent (Tooltip.new false))
                           (Tooltip.Efilter FocusOut false false false))
           Tooltip.Eleave)
  ∧ Tooltip.deleteLater_called
      (Tooltip.handle
         (Tooltip.handle (Tooltip.contextMenuEvent (Tooltip.new false))
                         (Tooltip.Efilter FocusOut false false false))
         Tooltip.Eleave)
    = Tooltip.deleteLater_called (Tooltip.new false).
Proof.
  assert (H1 : Tooltip.m_hideTimer_isActive (Tooltip.new false) = false)
    by reflexivity.
  assert (H2 : rtc Tooltip.quietStep (Tooltip.contextMenuEvent (Tooltip.new false))
                 (Tooltip.handle
                    (Tooltip.handle (Tooltip.contextMenuEvent (Tooltip.new false))
                                    (Tooltip.Efilter FocusOut false false false))
                    Tooltip.Eleave)).
  { eapply rtc_l.
    - apply (Tooltip.quiet_event _ (Tooltip.Efilter FocusOut false false false));
        reflexivity.
    - apply rtc_once, (Tooltip.quiet_event _ Tooltip.Eleave); reflexivity. }
  exact (conj H1 (conj H2
    (proj1 (proj2 (proj2 (context_menu_keeps_tooltip _ _ H1 H2)))))).
Defined.

(** With the context menu open, a filtered mouse move on a tooltip that is
    not manual and has no focus starts the timer, and its timeout hides the
    tooltip although the flag is still set. *)
Example context_menu_mouse_move_then_timeout :
  Tooltip.enabled
    (Tooltip.handle (Tooltip.contextMenuEvent (Tooltip.new false))
                    (Tooltip.Efilter MouseMove false false false))
    Tooltip.Etimeout = true
  ∧ Tooltip.handle
      (Tooltip.handle (Tooltip.contextMenuEvent (Tooltip.new false))
                      (Tooltip.Efilter MouseMove false false false))
      Tooltip.Etimeout
    = Tooltip.mk true true false true.
Proof. split; reflexivity. Qed.

(** ** How many tooltips there are *)

(** The tooltips alive are the one behind the static pointer, or none. *)
Lemma show_invariant_step (w w' : LspTooltip.World) :
  (∀ a, is_Some (LspTooltip.alive w !! a) ↔ LspTooltip.tooltip w = Some a) →
  LspTooltip.step w w' →
  (∀ a, is_Some (LspTooltip.alive w' !! a) ↔ LspTooltip.tooltip w' = Some a).
Proof.
  intros Hinv Hstep.
  assert (Hdestroy : ∀ a b, LspTooltip.tooltip w = Some a →
            LspTooltip.alive (LspTooltip.destroy a w) !! b = None).
  { intros a b Ha. unfold LspTooltip.destroy. simpl.
    destruct (decide (a = b)) as [->|Hne]; [apply lookup_delete_eq|].
    rewrite lookup_delete_ne by done.
    destruct (LspTooltip.alive w !! b) eqn:Hb; [|done].
    assert (LspTooltip.tooltip w = Some b) by (apply Hinv; by rewrite Hb).
    congruence. }
  destruct Hstep as [w empty ok manual|w a s e Ha He|w a s Ha Hd].
  - unfold LspTooltip.show.
    destruct empty; [done|]. destruct ok; [|done]. simpl.
    set (w1 := match LspTooltip.tooltip w with
               | Some a => LspTooltip.destroy a w
               | None => w
               end).
    assert (Hempty : ∀ b, LspTooltip.alive w1 !! b = None).
    { intros b. unfold w1. destruct (LspTooltip.tooltip w) as [a|] eqn:Ht.
      - by apply Hdestroy.
      - destruct (LspTooltip.alive w !! b) eqn:Hb; [|done].
        assert (None = Some b) by (apply Hinv; by rewrite Hb). done. }
    intros b. destruct (decide (fresh (dom (LspTooltip.alive w1)) = b)) as [<-|Hne].
    + rewrite lookup_insert_eq. split; [done|by eexists].
    + rewrite lookup_insert_ne, Hempty by done. split.
      * by intros [? ?].
      * intros [= ?]. done.
  - simpl. intros b. rewrite <- Hinv.
    destruct (decide (a = b)) as [<-|Hne].
    + rewrite lookup_insert_eq, Ha. split; by eexists.
    + by rewrite lookup_insert_ne.
  - assert (Ht : LspTooltip.tooltip w = Some a) by (apply Hinv; by rewrite Ha).
    intros b. rewrite (Hdestroy a b Ht).
    unfold LspTooltip.destroy. simpl. rewrite decide_True by done.
    split; [by intros [? ?]|done].
Qed.

Lemma show_invariant (w : LspTooltip.World) :
  rtc LspTooltip.step LspTooltip.initial w →
  ∀ a, is_Some (LspTooltip.alive w !! a) ↔ LspTooltip.tooltip w = Some a.
Proof.
  revert w.
  apply (rtc_ind_r (λ w, ∀ a, is_Some (LspTooltip.alive w !! a)
                              ↔ LspTooltip.tooltip w = Some a)).
  - intros a. simpl. rewrite lookup_empty. split; [by intros [? ?]|done].
  - intros w w' _ Hstep IH. by apply (show_invariant_step w w').
Qed.

(** At any time at most one tooltip is alive, and it is the one the static
    pointer of [LspTooltip::show] holds; the pointer is null or points to a
    tooltip alive.  A request with a text and a view leaves exactly one
    tooltip, a new one, behind; a request with an empty text or without a
    view changes nothing. *)
Theorem at_most_one_tooltip_alive (w : LspTooltip.World) :
  rtc LspTooltip.step LspTooltip.initial w →
  (∀ a, is_Some (LspTooltip.alive w !! a) ↔ LspTooltip.tooltip w = Some a)
  ∧ (size (LspTooltip.alive w) ≤ 1)%nat
  ∧ (∀ manual, ∃ a,
       LspTooltip.show false true manual w
       = LspTooltip.mkWorld {[ a := Tooltip.new manual ]} (Some a))
  ∧ (∀ v_ok manual, LspTooltip.show true v_ok manual w = w)
  ∧ (∀ manual, LspTooltip.show false false manual w = w).
Proof.
  intros Hr. pose proof (show_invariant w Hr) as Hinv.
  assert (Hshow : ∀ manual, ∃ a,
            LspTooltip.show false true manual w
            = LspTooltip.mkWorld {[ a := Tooltip.new manual ]} (Some a)).
  { intros manual.
    pose proof (show_invariant _ (rtc_r _ _ _ Hr
                  (LspTooltip.step_show w false true manual))) as Hinv'.
    revert Hinv'. unfold LspTooltip.show. simpl.
    set (w1 := match LspTooltip.tooltip w with
               | Some a => LspTooltip.destroy a w
               | None => w
               end).
    intros Hinv'. exists (fresh (dom (LspTooltip.alive w1))). f_equal.
    apply map_eq. intros b.
    destruct (decide (fresh (dom (LspTooltip.alive w1)) = b)) as [<-|Hne].
    - by rewrite lookup_insert_eq, lookup_singleton_eq.
    - rewrite lookup_singleton_ne by done.
      destruct (_ !! b) eqn:Hb; [|done].
      assert (Some (fresh (dom (LspTooltip.alive w1))) = Some b)
        by (apply Hinv'; simpl; by rewrite Hb).
      congruence. }
  split; [done|]. split; [|split; [done|split; done]].
  destruct (LspTooltip.tooltip w) as [a|] eqn:Ht.
  - destruct (proj2 (Hinv a) eq_refl) as [s Hs].
    assert (LspTooltip.alive w = {[ a := s ]}) as ->.
    { apply map_eq. intros b. destruct (decide (a = b)) as [<-|Hne].
      - by rewrite lookup_singleton_eq.
      - rewrite lookup_singleton_ne by done.
        destruct (LspTooltip.alive w !! b) eqn:Hb; [|done].
        assert (Some a = Some b) by (apply Hinv; by rewrite Hb). congruence. }
    by rewrite map_size_singleton.
  - assert (LspTooltip.alive w = ∅) as ->.
    { apply map_empty. intros b.
      destruct (LspTooltip.alive w !! b) eqn:Hb; [|done].
      assert (None = Some b) by (apply Hinv; by rewrite Hb). done. }
    rewrite map_size_empty. lia.
Qed.

Lemma at_most_one_tooltip_alive_witness :
  rtc LspTooltip.step LspTooltip.initial
      (LspTooltip.show false true false
         (LspTooltip.show false true true LspTooltip.initial))
  ∧ (size (LspTooltip.alive
             (LspTooltip.show false true false
                (LspTooltip.show false true true LspTooltip.initial))) ≤ 1)%nat.
Proof.
  assert (H1 : rtc LspTooltip.step LspTooltip.initial
                 (LspTooltip.show false true false
                    (LspTooltip.show false true true LspTooltip.initial))).
  { eapply rtc_l; [apply LspTooltip.step_show|].
    apply rtc_once, LspTooltip.step_show. }
  exact (conj H1 (proj1 (proj2 (at_most_one_tooltip_alive _ H1)))).
Defined.
